(** * COVID19_ABS: the agent and environment classes of ABClasses.py

    A shallow embedding of [age_distribution], of the class [agent]
    ([__init__] and [update]) and of the class [environment] ([__init__] and
    [update]), followed by the properties of the specification.

    Conventions of the embedding.
    - A Python float is a real number ([R]); a Python int is an integer ([Z]).
      Rounding error of double precision is outside the model.
    - numpy's global random generator is a state that every draw threads
      through; the generator itself is an interface ([Generator]), so every
      statement holds for whatever values the draws take.
    - scipy's [gamma(...).cdf] and [gaussian_kde] are an interface ([SciPy]):
      two total functions (an exception of [gaussian_kde] on a degenerate set
      of points is outside the model).
    - A [while] loop that resamples until a test passes is a recursion on a
      bound of its iterations; running out of the bound is the outcome
      [Exhausted].
    - [viralMap] is an array of shape (scale+1, scale+1); it is a function of
      the two indices, and a read outside the array is the outcome
      [IndexError]. *)

From Stdlib Require Import Reals Lra Lia ZArith List Bool.
From Stdlib Require Import Permutation Sorted.
Import ListNotations.

Open Scope R_scope.

(* ================================================================== *)
(** * Numbers *)

Definition Rltb (x y : R) : bool := if Rlt_dec x y then true else false.
Definition Rleb (x y : R) : bool := if Rle_dec x y then true else false.
Definition Reqb (x y : R) : bool := if Req_dec_T x y then true else false.

(** [True * x] is [x] and [False * x] is [0]. *)
Definition b2r (b : bool) : R := if b then 1 else 0.

(** [x ** y] on floats, for a base [x >= 0]: [x ** 0] is [1], [0 ** y] is [0]
    for [y > 0], and [exp (y * ln x)] for [x > 0].  (A negative base with a
    fractional exponent gives a complex number in Python; no caller of the
    simulation passes one.) *)
Definition fpow (x y : R) : R :=
  if Reqb y 0 then 1 else if Rleb x 0 then 0 else Rpower x y.

(** [int(x)]: truncation towards zero. *)
Definition py_int (x : R) : Z :=
  if Rleb 0 x then Int_part x else (- Int_part (- x))%Z.

(** [rint]: the nearest integer, a tie going to the even one. *)
Definition rint (x : R) : Z :=
  let f := Int_part x in
  let r := frac_part x in
  if Rltb r (1 / 2) then f
  else if Rltb (1 / 2) r then (f + 1)%Z
  else if Z.even f then f else (f + 1)%Z.

(** [x.round(g)] of numpy for [g >= 0] decimals: scale, [rint], scale back. *)
Definition np_round (g : nat) (x : R) : R := IZR (rint (x * 10 ^ g)) / 10 ^ g.

Definition point : Type := R * R.

Definition round_point (g : nat) (p : point) : point :=
  (np_round g (fst p), np_round g (snd p)).

(** [np.all(0 < p) and np.all(p < 1)] *)
Definition inside (p : point) : bool :=
  (Rltb 0 (fst p) && Rltb 0 (snd p)) && (Rltb (fst p) 1 && Rltb (snd p) 1).

(** [range(lo, hi)] *)
Definition range (lo hi : Z) : list Z :=
  map (fun k => (lo + Z.of_nat k)%Z) (seq 0 (Z.to_nat (hi - lo))).

(** [itertools.product(xs, ys)]: the first component varies slowest. *)
Definition product {A B : Type} (xs : list A) (ys : list B) : list (A * B) :=
  flat_map (fun x => map (fun y => (x, y)) ys) xs.

(* ================================================================== *)
(** * Outcomes and the random generator *)

Inductive outcome (A : Type) : Type :=
| Done (a : A)
| IndexError
| Exhausted.

Arguments Done {A} a.
Arguments IndexError {A}.
Arguments Exhausted {A}.

(** The draws of [np.random] the program uses. *)
Class Generator : Type := {
  rng : Type;
  (** [np.random.rand()] *)
  rand : rng -> R * rng;
  (** the standard normal draw behind [np.random.normal(loc, scale)], which
      is [loc + scale * z] *)
  standard_normal : rng -> R * rng;
  (** [np.random.choice(range(len p), 1, p=p)[0]] *)
  choice : list R -> rng -> nat * rng;
  (** [np.random.gamma(shape, scale)] *)
  gamma_draw : R -> R -> rng -> R * rng
}.

(** What the program relies on about the draws: [rand] is in [[0,1)] and
    [choice] returns a position of its weight list. *)
Class GeneratorLaws (G : Generator) : Prop := {
  rand_range : forall s, 0 <= fst (rand s) < 1;
  choice_range : forall p s, p <> [] -> (fst (choice p s) < length p)%nat
}.

(** The two scipy objects the program uses. *)
Class SciPy : Type := {
  (** [gamma(a, scale=s).cdf(x)] *)
  gamma_cdf : R -> R -> R -> R;
  (** [gaussian_kde(points.T).evaluate] at one point *)
  gaussian_kde : list point -> point -> R
}.

Section Monad.
Context {G : Generator}.

Definition M (A : Type) : Type := rng -> outcome (A * rng).

Definition ret {A} (a : A) : M A := fun s => Done (a, s).

Definition bind {A B} (m : M A) (k : A -> M B) : M B :=
  fun s => match m s with
           | Done (a, s') => k a s'
           | IndexError => IndexError
           | Exhausted => Exhausted
           end.

Definition raise_index {A} : M A := fun _ => IndexError.
Definition exhausted {A} : M A := fun _ => Exhausted.

(** A primitive draw always returns. *)
Definition draw {A} (f : rng -> A * rng) : M A := fun s => Done (f s).

(** [np.random.normal(loc, scale)] for a scalar [loc] *)
Definition normal (loc sd : R) : M R :=
  bind (draw standard_normal) (fun z => ret (loc + sd * z)).

(** [np.random.normal(loc, scale)] for a [loc] of two components *)
Definition normal2 (loc : point) (sd : R) : M point :=
  bind (normal (fst loc) sd) (fun x =>
  bind (normal (snd loc) sd) (fun y => ret (x, y))).

(** [np.random.random(2)] *)
Definition random2 : M point :=
  bind (draw rand) (fun x => bind (draw rand) (fun y => ret (x, y))).
End Monad.

Notation "x <- m ;; k" := (bind m (fun x => k))
  (at level 61, m at next level, right associativity).

(* ================================================================== *)
(** * The two classes: their attributes *)

Record agent : Type := mkAgent {
  ageBias : R;
  cleanlinessBias : R;
  socialDistanceBias : R;
  travelerBias : R;
  travelerBiasO : R;
  locationGranularity : nat;
  initialLocationBias : option point;
  age : R;
  location : point;
  preexistingCondition : bool;
  infected : bool;
  symptomatic : bool;
  alive : bool;
  protected : bool;
  infectionTime : Z;
  infectionTimer : Z;
  asymptomaticTime : R;
  asymptomaticTimer : R
}.

Definition grid : Type := Z -> Z -> R.

Record environment : Type := mkEnvironment {
  envGranularity : nat;       (* self.locationGranularity *)
  attenuation : R;
  AOE : Z;
  scale : Z;
  viralMap : grid
}.

(** Assignments to one attribute. *)
Definition set_location (a : agent) (l : point) : agent :=
  mkAgent (ageBias a) (cleanlinessBias a) (socialDistanceBias a)
    (travelerBias a) (travelerBiasO a) (locationGranularity a)
    (initialLocationBias a) (age a) l (preexistingCondition a)
    (infected a) (symptomatic a) (alive a) (protected a) (infectionTime a)
    (infectionTimer a) (asymptomaticTime a) (asymptomaticTimer a).

Definition set_infected (a : agent) (b : bool) : agent :=
  mkAgent (ageBias a) (cleanlinessBias a) (socialDistanceBias a)
    (travelerBias a) (travelerBiasO a) (locationGranularity a)
    (initialLocationBias a) (age a) (location a) (preexistingCondition a)
    b (symptomatic a) (alive a) (protected a) (infectionTime a)
    (infectionTimer a) (asymptomaticTime a) (asymptomaticTimer a).

Definition set_alive (a : agent) (b : bool) : agent :=
  mkAgent (ageBias a) (cleanlinessBias a) (socialDistanceBias a)
    (travelerBias a) (travelerBiasO a) (locationGranularity a)
    (initialLocationBias a) (age a) (location a) (preexistingCondition a)
    (infected a) (symptomatic a) b (protected a) (infectionTime a)
    (infectionTimer a) (asymptomaticTime a) (asymptomaticTimer a).

Definition set_protected (a : agent) (b : bool) : agent :=
  mkAgent (ageBias a) (cleanlinessBias a) (socialDistanceBias a)
    (travelerBias a) (travelerBiasO a) (locationGranularity a)
    (initialLocationBias a) (age a) (location a) (preexistingCondition a)
    (infected a) (symptomatic a) (alive a) b (infectionTime a)
    (infectionTimer a) (asymptomaticTime a) (asymptomaticTimer a).

Definition set_travelerBias (a : agent) (x : R) : agent :=
  mkAgent (ageBias a) (cleanlinessBias a) (socialDistanceBias a)
    x (travelerBiasO a) (locationGranularity a)
    (initialLocationBias a) (age a) (location a) (preexistingCondition a)
    (infected a) (symptomatic a) (alive a) (protected a) (infectionTime a)
    (infectionTimer a) (asymptomaticTime a) (asymptomaticTimer a).

Definition set_infectionTimer (a : agent) (n : Z) : agent :=
  mkAgent (ageBias a) (cleanlinessBias a) (socialDistanceBias a)
    (travelerBias a) (travelerBiasO a) (locationGranularity a)
    (initialLocationBias a) (age a) (location a) (preexistingCondition a)
    (infected a) (symptomatic a) (alive a) (protected a) (infectionTime a)
    n (asymptomaticTime a) (asymptomaticTimer a).

Definition set_asymptomaticTimer (a : agent) (x : R) : agent :=
  mkAgent (ageBias a) (cleanlinessBias a) (socialDistanceBias a)
    (travelerBias a) (travelerBiasO a) (locationGranularity a)
    (initialLocationBias a) (age a) (location a) (preexistingCondition a)
    (infected a) (symptomatic a) (alive a) (protected a) (infectionTime a)
    (infectionTimer a) (asymptomaticTime a) x.

(** [viralMap[i, j] = v] *)
Definition grid_set (m : grid) (i j : Z) (v : R) : grid :=
  fun i' j' => if (Z.eqb i' i && Z.eqb j' j)%bool then v else m i' j'.

(** [viralMap[i, j]] as numpy reads it: an index in [[0, scale]] is itself, an
    index in [[-(scale+1), -1]] counts from the end, any other raises. *)
Definition wrap_index (n i : Z) : option Z :=
  if ((0 <=? i) && (i <? n))%Z then Some i
  else if ((- n <=? i) && (i <? 0))%Z then Some (i + n)%Z
  else None.

Definition grid_get (e : environment) (i j : Z) : option R :=
  match wrap_index (scale e + 1) i, wrap_index (scale e + 1) j with
  | Some i', Some j' => Some (viralMap e i' j')
  | _, _ => None
  end.

(* ================================================================== *)
(** * class environment *)

Module Environment.

(** [environment.__init__] *)
Definition init (locationGranularity : nat) (attenuation : R) (AOE : Z)
  : environment :=
  {| envGranularity := locationGranularity;
     attenuation := attenuation;
     AOE := AOE;
     scale := 10 ^ Z.of_nat locationGranularity;
     viralMap := fun _ _ => 0 |}.

(** [p.alive and (p.infected or p.cleanlinessBias)] *)
Definition contributes (p : agent) : bool :=
  alive p && (infected p || negb (Reqb (cleanlinessBias p) 0)).

(** The body of the loop over the block, for the cell [(ii, jj)] and the
    agent [p] standing on the cell [(i, j)]. *)
Definition visit (att : R) (sc : Z) (p : agent) (i j : Z)
           (m : grid) (c : Z * Z) : grid :=
  let (ii, jj) := c in
  if (((0 <=? ii) && (ii <=? sc)) && ((0 <=? jj) && (jj <=? sc)))%Z then
    let d := (Z.abs (ii - i) + Z.abs (jj - j))%Z in
    let m1 := grid_set m ii jj
                (Rmin (m ii jj + b2r (infected p) * fpow att (IZR d / 2)) 1) in
    grid_set m1 ii jj
      (Rmax (m1 ii jj - cleanlinessBias p * fpow att (IZR d / 2)) 0)
  else m.

(** The block of cells examined around the cell [(i, j)]. *)
Definition block (aoe i j : Z) : list (Z * Z) :=
  product (range (i - aoe) (i + aoe + 1)) (range (j - aoe) (j + aoe + 1)).

(** The body of the loop over the population. *)
Definition spread (att : R) (sc aoe : Z) (m : grid) (p : agent) : grid :=
  if contributes p then
    let i := py_int (fst (location p) * IZR sc) in
    let j := py_int (snd (location p) * IZR sc) in
    fold_left (visit att sc p i j) (block aoe i j) m
  else m.

(** [environment.update] *)
Definition update (e : environment) (population : list agent) : environment :=
  let m := fold_left (spread (attenuation e) (scale e) (AOE e))
             population (viralMap e) in
  {| envGranularity := envGranularity e;
     attenuation := attenuation e;
     AOE := AOE e;
     scale := scale e;
     viralMap := fun i j => m i j * attenuation e |}.

End Environment.

(* ================================================================== *)
(** * age_distribution *)

(** The 2020 world population by five-year age group (21 groups). *)
Definition worldPopulationStats : list Z :=
  [349432556; 342927576; 331497486; 316642222; 308286775; 306059387;
   309236984; 276447037; 249389688; 241232876; 222609691; 192215395;
   157180267; 128939392; 87185982; 54754941; 33648953; 15756942; 5327866;
   1077791; 124144]%Z.

(** [worldPopulationStats /= sum(worldPopulationStats)] *)
Definition worldPopulationWeights : list R :=
  let total := fold_left Rplus (map IZR worldPopulationStats) 0 in
  map (fun n => IZR n / total) worldPopulationStats.

Section AgeDistribution.
Context {G : Generator}.

(** [while age < 0 or age > 104: age = np.random.normal(mean, 10)] *)
Fixpoint resample_age (fuel : nat) (mean age : R) : M R :=
  if (Rltb age 0 || Rltb 104 age)%bool then
    match fuel with
    | O => exhausted
    | S fuel' => a <- normal mean 10 ;; resample_age fuel' mean a
    end
  else ret age.

Definition age_distribution (fuel : nat) (mean : R) : M R :=
  if Rleb mean 0 then
    ageGroup <- draw (choice worldPopulationWeights) ;;
    u <- draw rand ;;
    ret (5 * INR ageGroup + 4 * u)
  else
    a <- normal mean 10 ;;
    resample_age fuel mean a.
End AgeDistribution.

(* ================================================================== *)
(** * class agent *)

(** [np.argsort(keys)]: the positions of [keys] in increasing order of key.
    Positions of equal keys come in increasing order here; numpy's default
    sort leaves their order open. *)
Fixpoint insert_position (keys : list R) (k : nat) (sorted : list nat) : list nat :=
  match sorted with
  | [] => [k]
  | j :: rest =>
      if Rltb (nth k keys 0) (nth j keys 0) then k :: sorted
      else j :: insert_position keys k rest
  end.

Definition argsort (keys : list R) : list nat :=
  fold_left (fun sorted k => insert_position keys k sorted)
            (seq 0 (length keys)) [].

(** [np.argmin(vs)]: the first position of the least value. *)
Fixpoint argmin_from (best : nat) (least : R) (k : nat) (vs : list R) : nat :=
  match vs with
  | [] => best
  | v :: vs' =>
      if Rltb v least then argmin_from k v (S k) vs'
      else argmin_from best least (S k) vs'
  end.

Definition argmin (vs : list R) : nat :=
  match vs with
  | [] => O
  | v :: vs' => argmin_from O v 1%nat vs'
  end.

(** [sum((l - here)**2)] *)
Definition dist2 (l here : point) : R :=
  (fst l - fst here) * (fst l - fst here)
  + (snd l - snd here) * (snd l - snd here).

(** [locations[np.argsort([...])[1:11]]] *)
Definition closestFriends (population : list agent) (here : point) : list point :=
  let locations := map location population in
  let order := argsort (map (fun l => dist2 l here) locations) in
  map (fun k => nth k locations (0, 0)) (firstn 10 (skipn 1 order)).

(** The mortality table of [update]. *)
Definition deathFactor (preexisting : bool) : R :=
  if preexisting then 0.105 else 0.

Definition ageFactor (age : R) : R :=
  if Rleb age 39 then 0.002
  else if (Rleb 40 age && Rleb age 49)%bool then 0.004
  else if (Rleb 50 age && Rleb age 59)%bool then 0.013
  else if (Rleb 60 age && Rleb age 69)%bool then 0.036
  else if (Rleb 70 age && Rleb age 79)%bool then 0.08
  else 0.148.

(** [(1-max(ageFactor, deathFactor))**(1/self.infectionTime)] *)
Definition survivalThreshold (a : agent) : R :=
  fpow (1 - Rmax (ageFactor (age a)) (deathFactor (preexistingCondition a)))
       (1 / IZR (infectionTime a)).

(** [self.travelerBias*10**(-self.locationGranularity)] *)
Definition stepScale (a : agent) : R :=
  travelerBias a * / 10 ^ locationGranularity a.

(** The block of assignments under [# Healed]. *)
Definition heal (a : agent) : agent :=
  let a := set_infected a false in
  let a := set_protected a true in
  let a := set_infectionTimer a (infectionTime a) in
  let a := set_asymptomaticTimer a (asymptomaticTime a) in
  set_travelerBias a (travelerBiasO a).

Module Agent.
Section WithLibraries.
Context {G : Generator} {P : SciPy}.

(** [agent.__init__] *)
Definition init (fuel : nat) (ageBias cleanlinessBias socialDistanceBias
                 travelerBias : R) (locationGranularity : nat)
                (initialLocationBias : option point) : M agent :=
  age <- age_distribution fuel ageBias ;;
  location <-
    match initialLocationBias with
    | Some bias =>
        l <- normal2 bias (/ 10 ^ locationGranularity) ;;
        let l := round_point locationGranularity l in
        ret (Rmin (Rmax (fst l) 0) 1, Rmin (Rmax (snd l) 0) 1)
    | None =>
        l <- random2 ;;
        ret (round_point locationGranularity l)
    end ;;
  u <- draw rand ;;
  let preexistingCondition := Rltb u (gamma_cdf 12 4.5 age) in
  long <-
    (if preexistingCondition then ret true
     else u' <- draw rand ;; ret (Rltb u' (gamma_cdf 12 4.5 age))) ;;
  let infectionTime := if (long : bool) then (7 * 4)%Z else (7 * 2)%Z in
  asymptomaticTime <- draw (gamma_draw 3 2) ;;
  ret {| ageBias := ageBias;
         cleanlinessBias := cleanlinessBias;
         socialDistanceBias := socialDistanceBias;
         travelerBias := travelerBias;
         travelerBiasO := travelerBias;
         locationGranularity := locationGranularity;
         initialLocationBias := initialLocationBias;
         age := age;
         location := location;
         preexistingCondition := preexistingCondition;
         infected := false;
         symptomatic := false;
         alive := true;
         protected := false;
         infectionTime := infectionTime;
         infectionTimer := infectionTime;
         asymptomaticTime := asymptomaticTime;
         asymptomaticTimer := asymptomaticTime |}.

(** The inner [while not (...)] of the movement: resample the candidate
    until it is strictly inside the unit square. *)
Fixpoint resample_location (fuel : nat) (here : point) (sd : R) (g : nat)
         (newLocation : point) : M point :=
  if inside newLocation then ret newLocation
  else
    match fuel with
    | O => exhausted
    | S fuel' =>
        l <- normal2 here sd ;;
        resample_location fuel' here sd g (round_point g l)
    end.

(** The outer [while len(testLocations) < tests]; [remaining] is
    [tests - len(testLocations)]. *)
Fixpoint gather (fuel remaining : nat) (here : point) (sd : R) (g : nat)
         (testLocations : list point) : M (list point) :=
  match remaining with
  | O => ret testLocations
  | S remaining' =>
      l <- normal2 here sd ;;
      newLocation <- resample_location fuel here sd g (round_point g l) ;;
      gather fuel remaining' here sd g (testLocations ++ [newLocation])
  end.

(** The movement of [update]: the new location. *)
Definition move (fuel : nat) (self : agent) (population : list agent)
  : M point :=
  u <- draw rand ;;
  if Rltb (socialDistanceBias self) u then
    testLocations <- gather fuel 1 (location self) (stepScale self)
                       (locationGranularity self) [] ;;
    ret (nth 0 testLocations (0, 0))
  else
    let kde := gaussian_kde (closestFriends population (location self)) in
    testLocations <- gather fuel 10 (location self) (stepScale self)
                       (locationGranularity self) [] ;;
    let bestLocation := argmin (map kde testLocations) in
    ret (nth bestLocation testLocations (0, 0)).

(** The rest of [update], once the agent has moved: exposure, or the
    course of the infection. *)
Definition progress (self : agent) (landscape : environment) : M agent :=
  if (negb (infected self) && negb (protected self))%bool then
    let i := py_int (fst (location self) * IZR (scale landscape)) in
    let j := py_int (snd (location self) * IZR (scale landscape)) in
    u <- draw rand ;;
    match grid_get landscape i j with
    | None => raise_index
    | Some load =>
        if Rltb u load then ret (set_infected self true) else ret self
    end
  else if infected self then
    if Rltb 0 (asymptomaticTimer self) then
      ret (set_asymptomaticTimer self (asymptomaticTimer self - 1))
    else
      let self := set_travelerBias self 0.5 in
      let self := set_infectionTimer self (infectionTimer self - 1) in
      if (infectionTimer self =? 0)%Z then ret (heal self)
      else
        u <- draw rand ;;
        if Rleb (survivalThreshold self) u then ret (set_alive self false)
        else ret self
  else ret self.

(** [agent.update] *)
Definition update (fuel : nat) (self : agent) (landscape : environment)
           (population : list agent) : M agent :=
  if alive self then
    newLocation <- move fuel self population ;;
    progress (set_location self newLocation) landscape
  else ret self.

End WithLibraries.
End Agent.

(* ================================================================== *)
(** * A generator that replays recorded draws, and a flat scipy *)

(** The draws a run made, kind by kind, in the order it made them. *)
Record tape : Type := mkTape {
  uniforms : list R;
  normals : list R;
  choices : list nat;
  gammas : list R
}.

(** A uniform entry outside [[0,1)] is read as [0]; a choice past the end of
    the weights is read as the last position; an exhausted tape gives [0]. *)
Definition replay_rand (t : tape) : R * tape :=
  match uniforms t with
  | [] => (0, t)
  | u :: us =>
      (if (Rleb 0 u && Rltb u 1)%bool then u else 0,
       mkTape us (normals t) (choices t) (gammas t))
  end.

Definition replay_normal (t : tape) : R * tape :=
  match normals t with
  | [] => (0, t)
  | z :: zs => (z, mkTape (uniforms t) zs (choices t) (gammas t))
  end.

Definition replay_choice (p : list R) (t : tape) : nat * tape :=
  match choices t with
  | [] => (O, t)
  | c :: cs =>
      (Nat.min c (length p - 1), mkTape (uniforms t) (normals t) cs (gammas t))
  end.

Definition replay_gamma (shape sc : R) (t : tape) : R * tape :=
  match gammas t with
  | [] => (0, t)
  | x :: xs => (x, mkTape (uniforms t) (normals t) (choices t) xs)
  end.

Definition replay : Generator :=
  {| rng := tape;
     rand := replay_rand;
     standard_normal := replay_normal;
     choice := replay_choice;
     gamma_draw := replay_gamma |}.

(** A scipy whose distribution function and density are constant. *)
Definition flat : SciPy :=
  {| gamma_cdf := fun _ _ _ => 1 / 2;
     gaussian_kde := fun _ _ => 1 |}.


(* ================================================================== *)
(** * Notions the properties are stated with *)

(** The cell an agent stands on: [int(loc[0]*scale), int(loc[1]*scale)]. *)
Definition cell_of (sc : Z) (p : agent) : Z * Z :=
  (py_int (fst (location p) * IZR sc), py_int (snd (location p) * IZR sc)).

(** The cells of an array of shape (sc+1, sc+1). *)
Definition in_grid (sc i j : Z) : Prop := (0 <= i <= sc /\ 0 <= j <= sc)%Z.


Definition taxicab (i j ii jj : Z) : Z := (Z.abs (ii - i) + Z.abs (jj - j))%Z.

(** The distance of the block: the larger of the two coordinate distances. *)
Definition chebyshev (i j ii jj : Z) : Z := Z.max (Z.abs (ii - i)) (Z.abs (jj - j)).

(** The load an agent [p] at taxicab distance [d] turns a load [v] into:
    the clamped deposit, then the clamped cleaning. *)
Definition deposit (att : R) (p : agent) (d : Z) (v : R) : R :=
  Rmax (Rmin (v + b2r (infected p) * fpow att (IZR d / 2)) 1
        - cleanlinessBias p * fpow att (IZR d / 2)) 0.

(** A run of the environment: one [update] per population of the list. *)
Definition run_environment (e : environment) (populations : list (list agent))
  : environment :=
  fold_left Environment.update populations e.

(** The derived reading of "symptomatic": infected, and the asymptomatic timer
    has run down. *)
Definition in_symptomatic_phase (a : agent) : bool :=
  infected a && Rleb (asymptomaticTimer a) 0.

Section Runs.
Context {G : Generator} {P : SciPy}.

(** [constructed a]: some call of [agent(...)] returns [a]. *)
Definition constructed (a : agent) : Prop :=
  exists fuel ageBias cleanlinessBias socialDistanceBias travelerBias
         locationGranularity initialLocationBias s s',
    Agent.init fuel ageBias cleanlinessBias socialDistanceBias travelerBias
      locationGranularity initialLocationBias s = Done (a, s').

(** [evolves a b]: some sequence of calls of [update], each with its own
    environment, population and generator state, takes [a] to [b]. *)
Inductive evolves : agent -> agent -> Prop :=
| evolves_refl a : evolves a a
| evolves_step a b c fuel landscape population s s' :
    evolves a b ->
    Agent.update fuel b landscape population s = Done (c, s') ->
    evolves a c.
End Runs.

(** The state of a symptomatic agent after the two assignments that open
    the branch: the travel energy, and the infection timer one day down. *)
Definition sickDay (a : agent) : agent :=
  set_infectionTimer (set_travelerBias a 0.5) (infectionTimer a - 1).


(** Every way [progress] can return. *)
Inductive progressed (a : agent) : agent -> Prop :=
| progressed_same :
    progressed a a
| progressed_infected :
    infected a = false -> protected a = false ->
    progressed a (set_infected a true)
| progressed_incubating :
    infected a = true -> 0 < asymptomaticTimer a ->
    progressed a (set_asymptomaticTimer a (asymptomaticTimer a - 1))
| progressed_healed :
    infected a = true -> asymptomaticTimer a <= 0 -> infectionTimer a = 1%Z ->
    progressed a (heal (sickDay a))
| progressed_sick :
    infected a = true -> asymptomaticTimer a <= 0 -> infectionTimer a <> 1%Z ->
    progressed a (sickDay a)
| progressed_dead :
    infected a = true -> asymptomaticTimer a <= 0 -> infectionTimer a <> 1%Z ->
    progressed a (set_alive (sickDay a) false).


(** The attributes no branch of [progress] assigns. *)
Definition same_constants (a a' : agent) : Prop :=
  age a' = age a
  /\ travelerBiasO a' = travelerBiasO a
  /\ infectionTime a' = infectionTime a
  /\ asymptomaticTime a' = asymptomaticTime a
  /\ symptomatic a' = symptomatic a
  /\ locationGranularity a' = locationGranularity a
  /\ preexistingCondition a' = preexistingCondition a.


(* ================================================================== *)
(** * Concrete agents and environments of the examples *)

(** A living agent of 30 years in the middle of the square, as
    [agent(travelerBias=2)] may return it. *)
Definition resident : agent :=
  {| ageBias := -1; cleanlinessBias := 0; socialDistanceBias := 0;
     travelerBias := 2; travelerBiasO := 2; locationGranularity := 2;
     initialLocationBias := None; age := 30; location := (0.5, 0.5);
     preexistingCondition := false; infected := false; symptomatic := false;
     alive := true; protected := false; infectionTime := 14;
     infectionTimer := 14; asymptomaticTime := 0.5; asymptomaticTimer := 0.5 |}.

(** The same agent standing on the corner cell (0,0), infected. *)
Definition corner_patient : agent :=
  set_infected (set_location resident (0, 0)) true.

(** A healthy agent on the corner cell whose cleaning effectiveness -3 is
    outside the documented [0,1]. *)
Definition negative_cleaner : agent :=
  {| ageBias := -1; cleanlinessBias := -3; socialDistanceBias := 0;
     travelerBias := 1; travelerBiasO := 1; locationGranularity := 2;
     initialLocationBias := None; age := 30; location := (0, 0);
     preexistingCondition := false; infected := false; symptomatic := false;
     alive := true; protected := false; infectionTime := 14;
     infectionTimer := 14; asymptomaticTime := 0.5; asymptomaticTimer := 0.5 |}.

(** The environment of the concrete scenario: attenuation 0.5, AOE 1. *)
Definition small_world : environment := Environment.init 2 0.5 1.

(** The recorded draws of one tick of an agent that is out of social
    distancing: the draw of the distancing test and one more uniform draw,
    and the two normal draws of the first candidate. *)
Definition one_tick : tape :=
  mkTape [0.5; 0.25] [1; -1] [] [].

(** What is left of [one_tick] after the movement. *)
Definition after_move : tape := mkTape [0.25] [] [] [].

(** What is left of it after one more uniform draw. *)
Definition after_draw : tape := mkTape [] [] [] [].

(** The recorded draws of [agent(travelerBias=2)] returning [resident]:
    age group 6 and offset 0; the position; the two draws against the gamma
    distribution function; the asymptomatic duration. *)
Definition birth : tape :=
  mkTape [0; 0.5; 0.5; 0.75; 0.75] [] [6%nat] [0.5].

(** [resident], infected, on its first day. *)
Definition incubating : agent := set_infected resident true.

(** [resident], infected, on the first day after its asymptomatic timer has
    run down. *)
Definition first_sick_day : agent := set_asymptomaticTimer incubating (-0.5).

(** The same, a day later: the travel energy is the one of the sick. *)
Definition sick : agent :=
  set_infectionTimer (set_travelerBias first_sick_day 0.5) 13.

(** [sick] on the last day of the infection. *)
Definition last_day : agent := set_infectionTimer sick 1.

(** [resident], recovered. *)
Definition immune : agent := set_protected resident true.

(** [resident], dead. *)
Definition deceased : agent := set_alive sick false.

(** An environment whose every cell carries the largest load. *)
Definition saturated_world : environment :=
  {| envGranularity := 2; attenuation := 0.4; AOE := 10; scale := 100;
     viralMap := fun _ _ => 1 |}.

(** The draws of one tick of a sick agent (travel energy 0.5). *)
Definition sick_tick : tape :=
  mkTape [0.5; 0.25] [2; -2] [] [].

(* ================================================================== *)
(** * The environment, cell by cell *)

(** Whether [environment.update] writes the cell [(x, y)] on behalf of the
    agent [p]: the agent contributes, the cell is a cell of the array, and it
    lies in the block around the cell of the agent. *)
Definition reaches (sc aoe : Z) (p : agent) (x y : Z) : bool :=
  Environment.contributes p
  && (((0 <=? x) && (x <=? sc)) && ((0 <=? y) && (y <=? sc)))%Z
  && (chebyshev (fst (cell_of sc p)) (snd (cell_of sc p)) x y <=? aoe)%Z.

(** What the agent [p] turns the load [v] of the cell [(x, y)] into. *)
Definition cell_effect (att : R) (sc aoe : Z) (p : agent) (x y : Z) (v : R) : R :=
  if reaches sc aoe p x y
  then deposit att p (taxicab (fst (cell_of sc p)) (snd (cell_of sc p)) x y) v
  else v.

(* ================================================================== *)
(** * simulate.py: the population, the seeding and the loop

    The plotting calls draw the state and change nothing; they are left out.
    [populationSize] and the index [patient0] that [np.random.randint] returns
    are parameters. *)

Definition set_cleanlinessBias (a : agent) (x : R) : agent :=
  mkAgent (ageBias a) x (socialDistanceBias a)
    (travelerBias a) (travelerBiasO a) (locationGranularity a)
    (initialLocationBias a) (age a) (location a) (preexistingCondition a)
    (infected a) (symptomatic a) (alive a) (protected a) (infectionTime a)
    (infectionTimer a) (asymptomaticTime a) (asymptomaticTimer a).

(** [l[k] = x] for a position [k] of the list. *)
Fixpoint replace_nth {A : Type} (k : nat) (x : A) (l : list A) : list A :=
  match l, k with
  | [], _ => []
  | _ :: l', O => x :: l'
  | y :: l', S k' => y :: replace_nth k' x l'
  end.

(** [sum([...])] of a list of booleans *)
Definition count_true (bs : list bool) : Z :=
  fold_left (fun n (b : bool) => (n + if b then 1 else 0)%Z) bs 0%Z.

Module Simulate.

(** [sum([p.alive and p.infected for p in population])] *)
Definition numInfected (population : list agent) : Z :=
  count_true (map (fun p => alive p && infected p) population).

(** [sum([not p.alive for p in population])] *)
Definition numDead (population : list agent) : Z :=
  count_true (map (fun p => negb (alive p)) population).

(** The three assignments to [population[patient0]]. *)
Definition seed_patient (p : agent) : agent :=
  set_location (set_cleanlinessBias (set_infected p true) 0) (0.5, 0.5).

(** The variables of the script the loop reads and writes. *)
Record state : Type := mkState {
  population : list agent;
  landscape : environment;
  statsStorage : list (Z * Z * Z);
  extraSteps : Z;
  maxInfected : Z;
  infectedNow : Z;            (* numInfected *)
  deadNow : Z                 (* numDead *)
}.

(** From "Seed the infection" to the first [landscape.update]. *)
Definition start (populationSize patient0 : nat) (population : list agent)
           (landscape : environment) : outcome state :=
  match nth_error population patient0 with
  | None => IndexError
  | Some p =>
      let population := replace_nth patient0 (seed_patient p) population in
      let numInfected := 1%Z in
      let numDead := 0%Z in
      Done {| population := population;
              landscape := Environment.update landscape population;
              statsStorage :=
                [((Z.of_nat populationSize - numInfected - numDead)%Z,
                  numInfected, numDead)];
              extraSteps := 10;
              maxInfected := 0;
              infectedNow := numInfected;
              deadNow := numDead |}
  end.

Section WithLibraries.
Context {G : Generator} {P : SciPy}.

(** The list comprehension that builds the population: the three draws of
    the keyword arguments, in the order they are written, then the
    constructor. *)
Fixpoint make_population (fuel populationSize : nat) : M (list agent) :=
  match populationSize with
  | O => ret []
  | S n =>
      u1 <- draw rand ;;
      u2 <- draw rand ;;
      u3 <- draw rand ;;
      a <- Agent.init fuel (-1) (0 * 0.5 * u1) (0 + 0 * u3) (1.0 + 2.5 * u2)
             2 None ;;
      rest <- make_population fuel n ;;
      ret (a :: rest)
  end.

(** [population[a].update(landscape, population)]: the agent is updated in
    place, so the agents after it see it as it is after its update. *)
Definition update_at (fuel : nat) (landscape : environment)
           (population : list agent) (a : nat) : M (list agent) :=
  match nth_error population a with
  | None => raise_index
  | Some p =>
      p' <- Agent.update fuel p landscape population ;;
      ret (replace_nth a p' population)
  end.

(** [for a in range(populationSize): population[a].update(...)] *)
Fixpoint sweep (fuel : nat) (landscape : environment) (indices : list nat)
         (population : list agent) : M (list agent) :=
  match indices with
  | [] => ret population
  | a :: rest =>
      population' <- update_at fuel landscape population a ;;
      sweep fuel landscape rest population'
  end.



End WithLibraries.
End Simulate.

(* ================================================================== *)
(** * More concrete agents and environments *)

(** A healthy agent on the corner cell that cleans with effectiveness 0.5. *)
Definition corner_cleaner : agent :=
  set_cleanlinessBias (set_location resident (0, 0)) 0.5.


(* ================================================================== *)
(** * Counted runs of an agent *)

Section CountedRuns.
Context {G : Generator} {P : SciPy}.

(** [evolves_in n a b]: [n] calls of [update], each with its own environment,
    population and generator state, take [a] to [b]. *)
Inductive evolves_in : nat -> agent -> agent -> Prop :=
| evolves_in_O a : evolves_in O a a
| evolves_in_S n a b c fuel landscape population s s' :
    evolves_in n a b ->
    Agent.update fuel b landscape population s = Done (c, s') ->
    evolves_in (S n) a c.

(** What a sweep of the population does to one agent: some calls of
    [update], none of which changes a dead agent. *)
Definition survives (p p' : agent) : Prop :=
  evolves p p' /\ (alive p = false -> p' = p).

End CountedRuns.

(** An agent as the script builds it. *)
Definition script_agent (a : agent) : Prop :=
  ageBias a = -1 /\ cleanlinessBias a = 0 /\ socialDistanceBias a = 0
  /\ 1 <= travelerBias a < 3.5 /\ travelerBiasO a = travelerBias a
  /\ locationGranularity a = 2%nat
  /\ alive a = true /\ infected a = false /\ protected a = false.

(** A position that comes out of [.round(g)]. *)
Definition rounded (g : nat) (l : point) : Prop :=
  exists raw, l = round_point g raw.

(** A position whose two components are multiples of [10 ** -g], strictly
    between 0 and 1. *)
Definition on_inner_grid (g : nat) (l : point) : Prop :=
  exists kx ky : Z,
    l = (IZR kx / 10 ^ g, IZR ky / 10 ^ g)
    /\ (0 < kx < 10 ^ Z.of_nat g)%Z /\ (0 < ky < 10 ^ Z.of_nat g)%Z.

(** The order of two positions of a list of keys. *)
Definition key_le (keys : list R) (i j : nat) : Prop :=
  nth i keys 0 <= nth j keys 0.

(** The rate the death check is built from: [max(ageFactor, deathFactor)]. *)
Definition max_rate (a : agent) : R :=
  Rmax (ageFactor (age a)) (deathFactor (preexistingCondition a)).

(** The draws of a tick that ends in death: the death check draws 0.99999. *)
Definition fatal_tick : tape := mkTape [0.5; 0.99999] [1; -1] [] [].




(* ================================================================== *)
(** * Facts about the numbers *)

Lemma Rltb_true x y : x < y -> Rltb x y = true.
Proof. intros H; unfold Rltb; destruct (Rlt_dec x y); [reflexivity | contradiction]. Qed.

Lemma Rltb_false x y : y <= x -> Rltb x y = false.
Proof. intros H; unfold Rltb; destruct (Rlt_dec x y); [lra | reflexivity]. Qed.

Lemma Rleb_true x y : x <= y -> Rleb x y = true.
Proof. intros H; unfold Rleb; destruct (Rle_dec x y); [reflexivity | contradiction]. Qed.

Lemma Rleb_false x y : y < x -> Rleb x y = false.
Proof. intros H; unfold Rleb; destruct (Rle_dec x y); [lra | reflexivity]. Qed.

Lemma Reqb_true x y : x = y -> Reqb x y = true.
Proof. intros H; unfold Reqb; destruct (Req_dec_T x y); [reflexivity | contradiction]. Qed.

Lemma Reqb_false x y : x <> y -> Reqb x y = false.
Proof. intros H; unfold Reqb; destruct (Req_dec_T x y); [contradiction | reflexivity]. Qed.

Lemma Rltb_iff x y : Rltb x y = true <-> x < y.
Proof.
  unfold Rltb; destruct (Rlt_dec x y); split; intros; try assumption;
    try reflexivity; try discriminate; contradiction.
Qed.

Lemma Rleb_iff x y : Rleb x y = true <-> x <= y.
Proof.
  unfold Rleb; destruct (Rle_dec x y); split; intros; try assumption;
    try reflexivity; try discriminate; contradiction.
Qed.

(** Decide the comparisons of a goal whose operands are numerals. *)
Ltac Rdecide :=
  repeat match goal with
    | |- context [Rltb ?x ?y] =>
        first [ rewrite (Rltb_true x y) by (simpl; lra)
              | rewrite (Rltb_false x y) by (simpl; lra) ]
    | |- context [Rleb ?x ?y] =>
        first [ rewrite (Rleb_true x y) by (simpl; lra)
              | rewrite (Rleb_false x y) by (simpl; lra) ]
    | |- context [Reqb ?x ?y] =>
        first [ rewrite (Reqb_true x y) by (simpl; lra)
              | rewrite (Reqb_false x y) by (simpl; lra) ]
    end.

Lemma inside_iff p :
  inside p = true <-> (0 < fst p < 1 /\ 0 < snd p < 1).
Proof.
  unfold inside. rewrite !andb_true_iff, !Rltb_iff. tauto.
Qed.

Lemma Int_part_IZR z : Int_part (IZR z) = z.
Proof. symmetry; apply Int_part_spec; lra. Qed.

Lemma py_int_IZR z : py_int (IZR z) = z.
Proof.
  unfold py_int. destruct (Rle_dec 0 (IZR z)) as [H | H].
  - rewrite Rleb_true by assumption. apply Int_part_IZR.
  - rewrite Rleb_false by lra.
    rewrite <- opp_IZR, Int_part_IZR. lia.
Qed.

(** [int] of a number of [[0, n]] is an integer of [[0, n]]. *)
Lemma py_int_range x n : 0 <= x <= IZR n -> (0 <= py_int x <= n)%Z.
Proof.
  intros [H0 Hn]. unfold py_int. rewrite Rleb_true by assumption.
  destruct (base_Int_part x) as [Hlo Hhi].
  split.
  - apply Z.lt_succ_r. apply lt_IZR. rewrite succ_IZR. lra.
  - apply le_IZR. lra.
Qed.

Lemma frac_part_IZR z : frac_part (IZR z) = 0.
Proof. unfold frac_part. rewrite Int_part_IZR. lra. Qed.

Lemma rint_IZR z : rint (IZR z) = z.
Proof.
  unfold rint. rewrite frac_part_IZR, Int_part_IZR.
  rewrite Rltb_true by lra. reflexivity.
Qed.

(** [rint] of a number of [[0, n]] is an integer of [[0, n]]. *)
Lemma rint_range x n : 0 <= x <= IZR n -> (0 <= rint x <= n)%Z.
Proof.
  intros [H0 Hn].
  destruct (base_Int_part x) as [Hlo Hhi].
  assert (Hf0 : (0 <= Int_part x)%Z).
  { apply Z.lt_succ_r. apply lt_IZR. rewrite succ_IZR. lra. }
  assert (Hfn : (Int_part x <= n)%Z) by (apply le_IZR; lra).
  assert (Hup : frac_part x <> 0 -> (Int_part x + 1 <= n)%Z).
  { intros Hne. unfold frac_part in Hne.
    assert (IZR (Int_part x) < IZR n) by lra.
    apply lt_IZR in H. lia. }
  unfold rint.
  destruct (Rlt_dec (frac_part x) (1 / 2)) as [Hlt | Hge].
  - rewrite Rltb_true by assumption. lia.
  - rewrite Rltb_false by lra.
    destruct (Rlt_dec (1 / 2) (frac_part x)) as [Hgt | Hle].
    + rewrite Rltb_true by assumption.
      assert (frac_part x <> 0) by lra. specialize (Hup H). lia.
    + rewrite Rltb_false by lra.
      assert (frac_part x <> 0) by lra. specialize (Hup H).
      destruct (Z.even (Int_part x)); lia.
Qed.

Lemma pow10_pos g : 0 < 10 ^ g.
Proof. apply pow_lt; lra. Qed.

(** Rounding to [g] decimals keeps a number of [[0,1]] in [[0,1]]. *)
Lemma np_round_unit g x : 0 <= x <= 1 -> 0 <= np_round g x <= 1.
Proof.
  intros [H0 H1]. unfold np_round.
  pose proof (pow10_pos g) as Hp.
  assert (Hz : 10 ^ g = IZR (10 ^ Z.of_nat g)).
  { rewrite <- pow_IZR. reflexivity. }
  assert (Hr : (0 <= rint (x * 10 ^ g) <= 10 ^ Z.of_nat g)%Z).
  { apply rint_range. rewrite <- Hz. split; nra. }
  destruct Hr as [Hr0 Hr1]. apply IZR_le in Hr0, Hr1.
  rewrite <- Hz in Hr1.
  split.
  - apply Rmult_le_pos; [assumption | left; apply Rinv_0_lt_compat; assumption].
  - apply Rmult_le_reg_r with (10 ^ g); [assumption |].
    unfold Rdiv. rewrite Rmult_assoc, Rinv_l by lra. lra.
Qed.

Lemma fpow_nonneg x y : 0 <= fpow x y.
Proof.
  unfold fpow. destruct (Reqb y 0); [lra |].
  destruct (Rleb x 0); [lra |].
  unfold Rpower. left; apply exp_pos.
Qed.

Lemma fpow_0_r x : fpow x 0 = 1.
Proof. unfold fpow. rewrite Reqb_true by reflexivity. reflexivity. Qed.

Lemma fpow_Rpower x y : 0 < x -> fpow x y = Rpower x y.
Proof.
  intros Hx. unfold fpow. destruct (Req_dec_T y 0) as [-> | Hy].
  - rewrite Reqb_true by reflexivity. symmetry; apply Rpower_O; assumption.
  - rewrite Reqb_false by assumption. rewrite Rleb_false by assumption.
    reflexivity.
Qed.

Lemma fpow_1_r x : 0 < x -> fpow x 1 = x.
Proof. intros Hx. rewrite fpow_Rpower by assumption. apply Rpower_1; assumption. Qed.

(* ================================================================== *)
(** * Facts about [range] and [product] *)

Lemma in_range lo hi k : In k (range lo hi) <-> (lo <= k < hi)%Z.
Proof.
  unfold range. rewrite in_map_iff. split.
  - intros [n [<- Hn]]. apply in_seq in Hn. lia.
  - intros H. exists (Z.to_nat (k - lo)). split; [lia |].
    apply in_seq. lia.
Qed.

Lemma NoDup_range lo hi : NoDup (range lo hi).
Proof.
  unfold range. generalize (seq_NoDup (Z.to_nat (hi - lo)) 0).
  generalize (seq 0 (Z.to_nat (hi - lo))) as l.
  induction l as [| n l IH]; intros Hnd; simpl; [constructor |].
  inversion Hnd as [| ? ? Hnotin Hnd']; subst.
  constructor; [| apply IH; assumption].
  rewrite in_map_iff. intros [m [Heq Hm]].
  assert (m = n) by lia. subst. contradiction.
Qed.

Lemma in_product {A B} (xs : list A) (ys : list B) x y :
  In (x, y) (product xs ys) <-> In x xs /\ In y ys.
Proof.
  unfold product. rewrite in_flat_map. split.
  - intros [x' [Hx Hin]]. apply in_map_iff in Hin.
    destruct Hin as [y' [Heq Hy]]. inversion Heq; subst. tauto.
  - intros [Hx Hy]. exists x. split; [assumption |].
    apply in_map_iff. exists y. tauto.
Qed.

Lemma NoDup_product {A B} (xs : list A) (ys : list B) :
  NoDup xs -> NoDup ys -> NoDup (product xs ys).
Proof.
  intros Hxs Hys. induction Hxs as [| x xs Hnotin Hxs IH]; simpl.
  - constructor.
  - change (product (x :: xs) ys)
      with (map (fun y => (x, y)) ys ++ product xs ys).
    apply NoDup_app.
    + clear -Hys. induction Hys as [| y ys Hn Hys IH]; simpl; constructor.
      * rewrite in_map_iff. intros [y' [Heq Hy']].
        inversion Heq; subst. contradiction.
      * assumption.
    + assumption.
    + intros [x' y'] Hin1 Hin2.
      apply in_map_iff in Hin1. destruct Hin1 as [y'' [Heq _]].
      inversion Heq; subst.
      apply in_product in Hin2. tauto.
Qed.

Lemma in_block aoe i j ii jj :
  In (ii, jj) (Environment.block aoe i j)
  <-> ((i - aoe <= ii <= i + aoe) /\ (j - aoe <= jj <= j + aoe))%Z.
Proof.
  unfold Environment.block. rewrite in_product, !in_range. lia.
Qed.

Lemma NoDup_block aoe i j : NoDup (Environment.block aoe i j).
Proof. apply NoDup_product; apply NoDup_range. Qed.

(* ================================================================== *)
(** * The environment: what one agent does to one cell *)

Lemma cell_eq_dec (c c' : Z * Z) : {c = c'} + {c <> c'}.
Proof. decide equality; apply Z.eq_dec. Qed.

Lemma grid_set_same m i j v : grid_set m i j v i j = v.
Proof. unfold grid_set. rewrite !Z.eqb_refl. reflexivity. Qed.

Lemma grid_set_other m i j v x y : (x, y) <> (i, j) -> grid_set m i j v x y = m x y.
Proof.
  intros Hne. unfold grid_set.
  destruct (Z.eqb_spec x i), (Z.eqb_spec y j); simpl; try reflexivity.
  subst. contradiction.
Qed.

Lemma visit_other att sc p i j m c x y :
  (x, y) <> c -> Environment.visit att sc p i j m c x y = m x y.
Proof.
  intros Hne. destruct c as [ii jj]. unfold Environment.visit.
  destruct (_ && _)%bool; [| reflexivity].
  rewrite !grid_set_other by assumption. reflexivity.
Qed.

Lemma visit_outside att sc p i j m ii jj :
  ~ in_grid sc ii jj -> Environment.visit att sc p i j m (ii, jj) = m.
Proof.
  intros Hout. unfold Environment.visit.
  destruct (_ && _)%bool eqn:Hg; [| reflexivity].
  exfalso; apply Hout. unfold in_grid.
  rewrite !andb_true_iff, !Z.leb_le in Hg. lia.
Qed.

Lemma visit_same att sc p i j m ii jj :
  in_grid sc ii jj ->
  Environment.visit att sc p i j m (ii, jj) ii jj
  = deposit att p (taxicab i j ii jj) (m ii jj).
Proof.
  intros [Hi Hj]. unfold Environment.visit.
  replace (((0 <=? ii)%Z && (ii <=? sc)%Z) && ((0 <=? jj)%Z && (jj <=? sc)%Z))%bool
    with true.
  2:{ symmetry. rewrite !andb_true_iff, !Z.leb_le. lia. }
  rewrite !grid_set_same. reflexivity.
Qed.

Lemma fold_visit_absent att sc p i j cells : forall m x y,
  ~ In (x, y) cells ->
  fold_left (Environment.visit att sc p i j) cells m x y = m x y.
Proof.
  induction cells as [| c cells IH]; intros m x y Hnotin; simpl; [reflexivity |].
  rewrite IH by (intros H; apply Hnotin; right; assumption).
  apply visit_other. intros Heq. apply Hnotin. left; symmetry; assumption.
Qed.

Lemma fold_visit_outside att sc p i j cells : forall m x y,
  ~ in_grid sc x y ->
  fold_left (Environment.visit att sc p i j) cells m x y = m x y.
Proof.
  induction cells as [| [ii jj] cells IH]; intros m x y Hout; cbn [fold_left];
    [reflexivity |].
  rewrite IH by assumption.
  destruct (cell_eq_dec (x, y) (ii, jj)) as [Heq | Hne].
  - injection Heq as -> ->. rewrite visit_outside by assumption. reflexivity.
  - apply visit_other; assumption.
Qed.

Lemma fold_visit_present att sc p i j cells : forall m x y,
  NoDup cells -> In (x, y) cells -> in_grid sc x y ->
  fold_left (Environment.visit att sc p i j) cells m x y
  = deposit att p (taxicab i j x y) (m x y).
Proof.
  induction cells as [| c cells IH]; intros m x y Hnd Hin Hg; [contradiction |].
  inversion Hnd as [| ? ? Hnotin Hnd']; subst. simpl.
  destruct Hin as [-> | Hin].
  - rewrite fold_visit_absent by assumption. apply visit_same; assumption.
  - rewrite IH by assumption. f_equal. apply visit_other.
    intros <-. contradiction.
Qed.

(** [spread]: on the cells of the array inside the block of a contributing
    agent, the clamped deposit and cleaning at the taxicab distance; the field
    as it was everywhere else. *)
Lemma spread_inside att sc aoe m p x y :
  Environment.contributes p = true ->
  in_grid sc x y ->
  (chebyshev (fst (cell_of sc p)) (snd (cell_of sc p)) x y <= aoe)%Z ->
  Environment.spread att sc aoe m p x y
  = deposit att p (taxicab (fst (cell_of sc p)) (snd (cell_of sc p)) x y) (m x y).
Proof.
  intros Hc Hg Hd. unfold Environment.spread. rewrite Hc.
  apply fold_visit_present; [apply NoDup_block | | assumption].
  apply in_block. unfold chebyshev, cell_of in Hd. simpl in Hd. lia.
Qed.

Lemma spread_elsewhere att sc aoe m p x y :
  Environment.contributes p = false \/ ~ in_grid sc x y
  \/ (aoe < chebyshev (fst (cell_of sc p)) (snd (cell_of sc p)) x y)%Z ->
  Environment.spread att sc aoe m p x y = m x y.
Proof.
  intros H. unfold Environment.spread.
  destruct (Environment.contributes p); [| reflexivity].
  destruct H as [H | [H | H]]; [discriminate | |].
  - apply fold_visit_outside; assumption.
  - apply fold_visit_absent. rewrite in_block.
    unfold chebyshev, cell_of in H. simpl in H. lia.
Qed.


Lemma deposit_unit att p d v :
  0 <= cleanlinessBias p -> 0 <= v <= 1 -> 0 <= deposit att p d v <= 1.
Proof.
  intros Hc [Hv0 Hv1]. unfold deposit.
  pose proof (fpow_nonneg att (IZR d / 2)) as Hp.
  set (w := fpow att (IZR d / 2)) in *.
  assert (0 <= cleanlinessBias p * w) by (apply Rmult_le_pos; assumption).
  split; [apply Rmax_r |].
  apply Rmax_lub; [| lra].
  pose proof (Rmin_r (v + b2r (infected p) * w) 1). lra.
Qed.

(* ================================================================== *)
(** * The environment: the whole update *)


Lemma fold_spread_frame att sc aoe population x y : forall m,
  (forall p, In p population -> Environment.contributes p = true ->
     (aoe < chebyshev (fst (cell_of sc p)) (snd (cell_of sc p)) x y)%Z) ->
  fold_left (Environment.spread att sc aoe) population m x y = m x y.
Proof.
  induction population as [| p population IH]; intros m Hfar; simpl.
  - reflexivity.
  - rewrite IH by (intros q Hq; apply Hfar; right; assumption).
    apply spread_elsewhere.
    destruct (Environment.contributes p) eqn:Hc; [| left; reflexivity].
    right; right. apply Hfar; [left; reflexivity | assumption].
Qed.



Lemma run_environment_attenuation populations : forall e,
  attenuation (run_environment e populations) = attenuation e.
Proof.
  unfold run_environment.
  induction populations as [| pop populations IH]; intros e; simpl;
    [reflexivity |].
  rewrite IH. reflexivity.
Qed.


(** ** The concrete scenario: attenuation 0.5, AOE 1, one infected agent that
    does not clean, on the cell (0,0) of a field of zeros. *)

Lemma half_power_unit : 0 < Rpower 0.5 0.5 < 1.
Proof.
  unfold Rpower. split; [apply exp_pos |].
  rewrite <- exp_0. apply exp_increasing.
  assert (ln 0.5 < 0) by (rewrite <- ln_1; apply ln_increasing; lra).
  nra.
Qed.

Lemma deposit_on_zero att p d :
  infected p = true -> cleanlinessBias p = 0 ->
  fpow att (IZR d / 2) <= 1 ->
  deposit att p d 0 = fpow att (IZR d / 2).
Proof.
  intros Hi Hc Hw. unfold deposit. rewrite Hi, Hc. simpl b2r.
  pose proof (fpow_nonneg att (IZR d / 2)) as H0.
  rewrite Rmin_left by lra. rewrite Rmax_left by lra. lra.
Qed.

Lemma one_le_pow10 g : (1 <= 10 ^ Z.of_nat g)%Z.
Proof.
  assert (0 < 10 ^ Z.of_nat g)%Z by (apply Z.pow_pos_nonneg; lia). lia.
Qed.

Lemma scenario_cells g p :
  alive p = true -> infected p = true -> cleanlinessBias p = 0 ->
  cell_of (10 ^ Z.of_nat g) p = (0, 0)%Z ->
  let e' := Environment.update (Environment.init g 0.5 1) [p] in
  viralMap e' 0%Z 0%Z = 0.5
  /\ viralMap e' 1%Z 0%Z = Rpower 0.5 0.5 * 0.5
  /\ viralMap e' 0%Z 1%Z = Rpower 0.5 0.5 * 0.5
  /\ viralMap e' 1%Z 1%Z = 0.25.
Proof.
  intros Ha Hi Hc Hcell e'.
  assert (Hcon : Environment.contributes p = true).
  { unfold Environment.contributes. rewrite Ha, Hi. reflexivity. }
  pose proof (one_le_pow10 g) as Hsc.
  pose proof half_power_unit as [Hs0 Hs1].
  assert (Hcellv : forall x y d,
             in_grid (10 ^ Z.of_nat g) x y ->
             (chebyshev 0 0 x y <= 1)%Z -> taxicab 0 0 x y = d ->
             fpow 0.5 (IZR d / 2) <= 1 ->
             viralMap e' x y = fpow 0.5 (IZR d / 2) * 0.5).
  { intros x y d Hg Hd Ht Hw. subst e'. simpl.
    rewrite spread_inside; try assumption; rewrite Hcell; simpl fst; simpl snd;
      try assumption.
    rewrite Ht. rewrite deposit_on_zero by assumption. reflexivity. }
  assert (Hw0 : fpow 0.5 (0 / 2) = 1).
  { replace (0 / 2) with 0 by lra. apply fpow_0_r. }
  assert (Hw1 : fpow 0.5 (1 / 2) = Rpower 0.5 0.5).
  { replace (1 / 2) with 0.5 by lra. apply fpow_Rpower; lra. }
  assert (Hw2 : fpow 0.5 (2 / 2) = 0.5).
  { replace (2 / 2) with 1 by lra. apply fpow_1_r; lra. }
  repeat split.
  - rewrite (Hcellv 0 0 0)%Z;
      [ | unfold in_grid; lia | unfold chebyshev; lia | reflexivity | ];
      rewrite Hw0; lra.
  - rewrite (Hcellv 1 0 1)%Z;
      [ | unfold in_grid; lia | unfold chebyshev; lia | reflexivity | ];
      rewrite Hw1; lra.
  - rewrite (Hcellv 0 1 1)%Z;
      [ | unfold in_grid; lia | unfold chebyshev; lia | reflexivity | ];
      rewrite Hw1; lra.
  - rewrite (Hcellv 1 1 2)%Z;
      [ | unfold in_grid; lia | unfold chebyshev; lia | reflexivity | ];
      rewrite Hw2; lra.
Qed.

Lemma origin_cell sc p : location p = (0, 0) -> cell_of sc p = (0, 0)%Z.
Proof.
  intros Hl. unfold cell_of. rewrite Hl. cbn [fst snd].
  replace (0 * IZR sc) with (IZR 0) by lra.
  rewrite py_int_IZR. reflexivity.
Qed.

Lemma corner_patient_cell sc : cell_of sc corner_patient = (0, 0)%Z.
Proof. apply origin_cell. reflexivity. Qed.

(* ================================================================== *)
(** * The agent: the structure of [update] *)

Section AgentFacts.
Context {G : Generator} {P : SciPy}.

Lemma bind_Done {A B} (m : M A) (k : A -> M B) s r :
  bind m k s = Done r ->
  exists a s1, m s = Done (a, s1) /\ k a s1 = Done r.
Proof.
  unfold bind. destruct (m s) as [[a s1] | |]; intros H; try discriminate.
  exists a, s1. split; [reflexivity | assumption].
Qed.

Lemma bind_of_Done {A B} (m : M A) (k : A -> M B) s a s1 :
  m s = Done (a, s1) -> bind m k s = k a s1.
Proof. intros H. unfold bind. rewrite H. reflexivity. Qed.

Lemma ret_Done {A} (a a' : A) s s' :
  ret a s = Done (a', s') -> a' = a /\ s' = s.
Proof. unfold ret. intros H. inversion H. split; reflexivity. Qed.

Lemma normal_Done loc sd s :
  normal loc sd s
  = Done (loc + sd * fst (standard_normal s), snd (standard_normal s)).
Proof.
  unfold normal, bind, draw, ret. destruct (standard_normal s); reflexivity.
Qed.

Lemma normal2_Done loc sd s :
  normal2 loc sd s
  = Done ((fst loc + sd * fst (standard_normal s),
           snd loc + sd * fst (standard_normal (snd (standard_normal s)))),
          snd (standard_normal (snd (standard_normal s)))).
Proof.
  unfold normal2. unfold bind at 1. rewrite normal_Done.
  unfold bind at 1. rewrite normal_Done. reflexivity.
Qed.

(** ** Movement *)

Lemma resample_location_inside fuel here sd g : forall c s l s',
  Agent.resample_location fuel here sd g c s = Done (l, s') ->
  inside l = true.
Proof.
  induction fuel as [| fuel IH]; intros c s l s' H; simpl in H.
  - destruct (inside c) eqn:Hc; [| discriminate].
    apply ret_Done in H. destruct H as [-> _]. assumption.
  - destruct (inside c) eqn:Hc.
    + apply ret_Done in H. destruct H as [-> _]. assumption.
    + apply bind_Done in H. destruct H as [c' [s1 [_ H]]].
      eapply IH; eassumption.
Qed.

Lemma resample_location_accept fuel here sd g c s :
  inside c = true ->
  Agent.resample_location fuel here sd g c s = Done (c, s).
Proof. intros Hc. destruct fuel; simpl; rewrite Hc; reflexivity. Qed.

Lemma gather_inside fuel here sd g remaining : forall acc s ls s',
  Forall (fun l => inside l = true) acc ->
  Agent.gather fuel remaining here sd g acc s = Done (ls, s') ->
  Forall (fun l => inside l = true) ls
  /\ length ls = (remaining + length acc)%nat.
Proof.
  induction remaining as [| remaining IH]; intros acc s ls s' Hacc H; simpl in H.
  - apply ret_Done in H. destruct H as [-> _]. split; [assumption | reflexivity].
  - apply bind_Done in H. destruct H as [c [s1 [_ H]]].
    apply bind_Done in H. destruct H as [c' [s2 [Hc' H]]].
    apply resample_location_inside in Hc'.
    apply IH in H.
    + destruct H as [Hls Hlen]. split; [assumption |].
      rewrite Hlen, length_app. simpl. lia.
    + apply Forall_app. split; [assumption |].
      constructor; [assumption | constructor].
Qed.

Lemma argmin_from_lt vs : forall best least k,
  (best < k)%nat -> (argmin_from best least k vs < k + length vs)%nat.
Proof.
  induction vs as [| v vs IH]; intros best least k Hb; simpl.
  - lia.
  - destruct (Rltb v least).
    + specialize (IH k v (S k)). lia.
    + specialize (IH best least (S k)). lia.
Qed.

Lemma argmin_lt vs : vs <> [] -> (argmin vs < length vs)%nat.
Proof.
  destruct vs as [| v vs]; [congruence |]. intros _. simpl.
  pose proof (argmin_from_lt vs O v 1%nat). lia.
Qed.

Lemma nth_inside (ls : list point) k :
  Forall (fun l => inside l = true) ls -> (k < length ls)%nat ->
  inside (nth k ls (0, 0)) = true.
Proof.
  intros Hls Hk. rewrite Forall_forall in Hls. apply Hls.
  apply nth_In. assumption.
Qed.

(** The location the movement returns is strictly inside the square. *)
Lemma move_inside fuel self population s l s' :
  Agent.move fuel self population s = Done (l, s') -> inside l = true.
Proof.
  unfold Agent.move. intros H.
  apply bind_Done in H. destruct H as [u [s1 [_ H]]].
  destruct (Rltb (socialDistanceBias self) u).
  - apply bind_Done in H. destruct H as [ls [s2 [Hg H]]].
    apply ret_Done in H. destruct H as [-> _].
    apply gather_inside in Hg; [| constructor]. destruct Hg as [Hls Hlen].
    apply nth_inside; [assumption | simpl in Hlen; lia].
  - apply bind_Done in H. destruct H as [ls [s2 [Hg H]]].
    apply ret_Done in H. destruct H as [-> _].
    apply gather_inside in Hg; [| constructor]. destruct Hg as [Hls Hlen].
    apply nth_inside; [assumption |].
    rewrite <- (length_map (gaussian_kde
                 (closestFriends population (location self))) ls).
    apply argmin_lt. destruct ls; [discriminate | discriminate].
Qed.

(** When the draw takes the agent out of social distancing and the first
    candidate is inside the square, the movement returns it, whatever the
    bound on the resampling. *)
Lemma move_first_candidate fuel self population s :
  let u := fst (rand s) in
  let s1 := snd (rand s) in
  let z0 := fst (standard_normal s1) in
  let s2 := snd (standard_normal s1) in
  let z1 := fst (standard_normal s2) in
  let s3 := snd (standard_normal s2) in
  let c := round_point (locationGranularity self)
             (fst (location self) + stepScale self * z0,
              snd (location self) + stepScale self * z1) in
  socialDistanceBias self < u -> inside c = true ->
  Agent.move fuel self population s = Done (c, s3).
Proof.
  intros u s1 z0 s2 z1 s3 c Hu Hc. unfold Agent.move.
  unfold bind at 1. unfold draw at 1.
  destruct (rand s) as [u' s1'] eqn:Hr. simpl in u, s1. subst u s1.
  rewrite Rltb_true by assumption.
  unfold bind at 1. simpl Agent.gather.
  unfold bind at 1. rewrite normal2_Done.
  unfold bind at 1. fold z0 s2 z1 s3 c.
  rewrite resample_location_accept by assumption.
  reflexivity.
Qed.

(** ** The course of the infection *)

Lemma progress_immune a landscape s :
  infected a = false -> protected a = true ->
  Agent.progress a landscape s = Done (a, s).
Proof. intros Hi Hp. unfold Agent.progress. rewrite Hi, Hp. reflexivity. Qed.

Lemma progress_incubating a landscape s :
  infected a = true -> 0 < asymptomaticTimer a ->
  Agent.progress a landscape s
  = Done (set_asymptomaticTimer a (asymptomaticTimer a - 1), s).
Proof.
  intros Hi Ht. unfold Agent.progress. rewrite Hi. simpl.
  rewrite Rltb_true by assumption. reflexivity.
Qed.

Lemma progress_healed a landscape s :
  infected a = true -> asymptomaticTimer a <= 0 -> infectionTimer a = 1%Z ->
  Agent.progress a landscape s = Done (heal (sickDay a), s).
Proof.
  intros Hi Ht Hn. unfold Agent.progress. rewrite Hi. simpl.
  rewrite Rltb_false by assumption. rewrite Hn. reflexivity.
Qed.

Lemma progress_sick a landscape s :
  infected a = true -> asymptomaticTimer a <= 0 -> infectionTimer a <> 1%Z ->
  Agent.progress a landscape s
  = Done (if Rleb (survivalThreshold a) (fst (rand s))
          then set_alive (sickDay a) false else sickDay a,
          snd (rand s)).
Proof.
  intros Hi Ht Hn. unfold Agent.progress. rewrite Hi. simpl.
  rewrite Rltb_false by assumption.
  destruct (Z.eqb_spec (infectionTimer a - 1) 0) as [H0 | H0]; [lia |].
  unfold bind, draw. destruct (rand s) as [u s1]. simpl.
  fold (sickDay a).
  change (survivalThreshold (sickDay a)) with (survivalThreshold a).
  destruct (Rleb (survivalThreshold a) u); reflexivity.
Qed.

Lemma progress_exposed a landscape s :
  infected a = false -> protected a = false ->
  Agent.progress a landscape s
  = match grid_get landscape (fst (cell_of (scale landscape) a))
                             (snd (cell_of (scale landscape) a)) with
    | None => IndexError
    | Some load =>
        Done (if Rltb (fst (rand s)) load then set_infected a true else a,
              snd (rand s))
    end.
Proof.
  intros Hi Hp. unfold Agent.progress. rewrite Hi, Hp. simpl.
  unfold bind, draw. destruct (rand s) as [u s1]. simpl.
  destruct (grid_get _ _ _); [| reflexivity].
  destruct (Rltb u r); reflexivity.
Qed.

Lemma progress_progressed a landscape s a' s' :
  Agent.progress a landscape s = Done (a', s') -> progressed a a'.
Proof.
  intros H.
  destruct (infected a) eqn:Hi.
  - destruct (Rlt_dec 0 (asymptomaticTimer a)) as [Ht | Ht].
    + rewrite progress_incubating in H by assumption.
      inversion H; subst. apply progressed_incubating; assumption.
    + assert (Ht' : asymptomaticTimer a <= 0) by lra.
      destruct (Z.eq_dec (infectionTimer a) 1) as [Hn | Hn].
      * rewrite progress_healed in H by assumption.
        inversion H; subst. apply progressed_healed; assumption.
      * rewrite progress_sick in H by assumption.
        inversion H; subst.
        destruct (Rleb _ _);
          [apply progressed_dead | apply progressed_sick]; assumption.
  - destruct (protected a) eqn:Hp.
    + rewrite progress_immune in H by assumption.
      inversion H; subst. apply progressed_same.
    + rewrite progress_exposed in H by assumption.
      destruct (grid_get _ _ _); [| discriminate].
      inversion H; subst.
      destruct (Rltb _ _);
        [apply progressed_infected; assumption | apply progressed_same].
Qed.

(** ** [update] *)

Lemma update_dead fuel a landscape population s :
  alive a = false -> Agent.update fuel a landscape population s = Done (a, s).
Proof. intros H. unfold Agent.update. rewrite H. reflexivity. Qed.

Lemma update_alive fuel a landscape population s l s1 :
  alive a = true ->
  Agent.move fuel a population s = Done (l, s1) ->
  Agent.update fuel a landscape population s
  = Agent.progress (set_location a l) landscape s1.
Proof.
  intros Ha Hm. unfold Agent.update. rewrite Ha.
  unfold bind. rewrite Hm. reflexivity.
Qed.

(** Every way [update] can return: a dead agent as it was; a living one
    moved strictly inside the square, then progressed. *)
Lemma update_cases fuel a landscape population s a' s' :
  Agent.update fuel a landscape population s = Done (a', s') ->
  (alive a = false /\ a' = a /\ s' = s)
  \/ (alive a = true
      /\ exists l s1, Agent.move fuel a population s = Done (l, s1)
                      /\ inside l = true
                      /\ Agent.progress (set_location a l) landscape s1
                         = Done (a', s')
                      /\ progressed (set_location a l) a').
Proof.
  intros H. destruct (alive a) eqn:Ha.
  - right. split; [reflexivity |].
    unfold Agent.update in H. rewrite Ha in H.
    apply bind_Done in H. destruct H as [l [s1 [Hm Hp]]].
    exists l, s1. split; [assumption |].
    split; [eapply move_inside; eassumption |].
    split; [assumption | eapply progress_progressed; eassumption].
  - left. rewrite update_dead in H by assumption.
    inversion H; subst. repeat split.
Qed.

End AgentFacts.

(* ================================================================== *)
(** * The agent: what [update] keeps *)

Section AgentInvariants.
Context {G : Generator} {P : SciPy}.

Lemma progressed_constants a a' :
  progressed a a' -> same_constants a a' /\ location a' = location a.
Proof. intros H; destruct H; unfold same_constants; simpl; tauto. Qed.

Lemma update_constants fuel a landscape population s a' s' :
  Agent.update fuel a landscape population s = Done (a', s') ->
  same_constants a a'.
Proof.
  intros H. apply update_cases in H.
  destruct H as [[_ [-> _]] | [_ [l [s1 [_ [_ [_ Hp]]]]]]].
  - unfold same_constants; tauto.
  - apply progressed_constants in Hp. destruct Hp as [Hp _].
    unfold same_constants in *. simpl in Hp. exact Hp.
Qed.

Lemma evolves_constants a a' : evolves a a' -> same_constants a a'.
Proof.
  induction 1 as [a | a b c fuel landscape population s s' _ IH Hstep].
  - unfold same_constants; tauto.
  - apply update_constants in Hstep. unfold same_constants in *.
    intuition congruence.
Qed.

(** After [update] the location is the old one (a dead agent) or strictly
    inside the square (a living one). *)
Lemma update_location fuel a landscape population s a' s' :
  Agent.update fuel a landscape population s = Done (a', s') ->
  (alive a = false /\ location a' = location a)
  \/ (alive a = true /\ inside (location a') = true).
Proof.
  intros H. apply update_cases in H.
  destruct H as [[Ha [-> _]] | [Ha [l [s1 [_ [Hl [_ Hp]]]]]]].
  - left; tauto.
  - right. split; [assumption |].
    apply progressed_constants in Hp. destruct Hp as [_ ->]. exact Hl.
Qed.

(** A protected agent that is not infected comes out of [update] protected
    and not infected. *)
Lemma update_immune fuel a landscape population s a' s' :
  infected a = false -> protected a = true ->
  Agent.update fuel a landscape population s = Done (a', s') ->
  infected a' = false /\ protected a' = true.
Proof.
  intros Hi Hp H. apply update_cases in H.
  destruct H as [[_ [-> _]] | [_ [l [s1 [_ [_ [Hpr _]]]]]]].
  - tauto.
  - rewrite progress_immune in Hpr by assumption.
    inversion Hpr; subst. simpl. tauto.
Qed.

Lemma evolves_immune a a' :
  evolves a a' -> infected a = false -> protected a = true ->
  infected a' = false /\ protected a' = true.
Proof.
  induction 1 as [a | a b c fuel landscape population s s' _ IH Hstep];
    intros Hi Hp.
  - tauto.
  - destruct (IH Hi Hp) as [Hi' Hp'].
    eapply update_immune; eassumption.
Qed.

(** The asymptomatic timer after one [update]: one less, from a positive
    value of an infected living agent; or the sampled duration, on the day
    of the recovery; or as it was. *)
Lemma update_asymptomaticTimer fuel a landscape population s a' s' :
  Agent.update fuel a landscape population s = Done (a', s') ->
  (alive a = true /\ infected a = true /\ 0 < asymptomaticTimer a
   /\ asymptomaticTimer a' = asymptomaticTimer a - 1)
  \/ (alive a = true /\ infected a = true /\ asymptomaticTimer a <= 0
      /\ infectionTimer a = 1%Z
      /\ infected a' = false /\ protected a' = true
      /\ asymptomaticTimer a' = asymptomaticTime a)
  \/ asymptomaticTimer a' = asymptomaticTimer a.
Proof.
  intros H. apply update_cases in H.
  destruct H as [[_ [-> _]] | [Ha [l [s1 [_ [_ [_ Hp]]]]]]].
  - right; right; reflexivity.
  - inversion Hp; subst; simpl in *.
    + right; right; reflexivity.
    + right; right; reflexivity.
    + left; tauto.
    + right; left; tauto.
    + right; right; reflexivity.
    + right; right; reflexivity.
Qed.

Lemma evolves_timer_lower a a' :
  evolves a a' -> 0 <= asymptomaticTime a -> -1 < asymptomaticTimer a ->
  -1 < asymptomaticTimer a'.
Proof.
  induction 1 as [a | a b c fuel landscape population s s' Hab IH Hstep];
    intros Htime Htimer.
  - assumption.
  - specialize (IH Htime Htimer).
    pose proof (evolves_constants _ _ Hab) as [_ [_ [_ [Hc _]]]].
    apply update_asymptomaticTimer in Hstep.
    destruct Hstep as [[_ [_ [Hpos ->]]] | [[_ [_ [_ [_ [_ [_ ->]]]]]] | ->]];
      lra.
Qed.

Lemma evolves_timer_fixed a a' :
  evolves a a' -> asymptomaticTimer a <= 0 ->
  asymptomaticTimer a' = asymptomaticTimer a
  \/ (infected a' = false /\ protected a' = true
      /\ asymptomaticTimer a' = asymptomaticTime a).
Proof.
  induction 1 as [a | a b c fuel landscape population s s' Hab IH Hstep];
    intros Htimer.
  - left; reflexivity.
  - pose proof (evolves_constants _ _ Hab) as [_ [_ [_ [Hc _]]]].
    destruct (IH Htimer) as [Hb | [Hi [Hp Hb]]].
    + pose proof Hstep as Hstep'. apply update_asymptomaticTimer in Hstep'.
      destruct Hstep' as [[_ [_ [Hpos _]]] | [[_ [_ [_ [_ [Hi' [Hp' Hc']]]]]] | Hc']].
      * lra.
      * right. rewrite Hc', Hc. tauto.
      * left. congruence.
    + right.
      destruct (update_immune _ _ _ _ _ _ _ Hi Hp Hstep) as [Hi' Hp'].
      apply update_asymptomaticTimer in Hstep.
      destruct Hstep as [[_ [Hinf _]] | [[_ [Hinf _]] | Hc']];
        try congruence.
      repeat split; try assumption. congruence.
Qed.

(** A symptomatic agent stays symptomatic with the travel energy [0.5]
    until it recovers; recovered, it keeps the travel energy it was
    constructed with. *)
Lemma evolves_sick a a' :
  evolves a a' ->
  infected a = true -> asymptomaticTimer a <= 0 -> travelerBias a = 0.5 ->
  (infected a' = true /\ asymptomaticTimer a' <= 0 /\ travelerBias a' = 0.5)
  \/ (infected a' = false /\ protected a' = true
      /\ travelerBias a' = travelerBiasO a).
Proof.
  induction 1 as [a | a b c fuel landscape population s s' Hab IH Hstep];
    intros Hi Ht Hb.
  - left; tauto.
  - pose proof (evolves_constants _ _ Hab) as [_ [Hc _]].
    apply update_cases in Hstep.
    destruct (IH Hi Ht Hb) as [[Hi' [Ht' Hb']] | [Hi' [Hp' Hb']]];
      destruct Hstep as [[_ [-> _]] | [_ [l [s1 [_ [_ [_ Hp]]]]]]];
      try (left; tauto); try (right; tauto).
    + inversion Hp; subst; simpl in *; try congruence; try lra;
        try (left; repeat split; (assumption || reflexivity));
        right; repeat split; congruence.
    + inversion Hp; subst; simpl in *; try congruence.
      right; tauto.
Qed.

End AgentInvariants.

(* ================================================================== *)
(** * The agent: construction, and the bounds of age and position *)

Lemma worldPopulationWeights_length : length worldPopulationWeights = 21%nat.
Proof. unfold worldPopulationWeights. rewrite length_map. reflexivity. Qed.

Lemma wrap_index_in_range n i : (0 <= i < n)%Z -> wrap_index n i = Some i.
Proof.
  intros H. unfold wrap_index.
  replace ((0 <=? i)%Z && (i <? n)%Z)%bool with true; [reflexivity |].
  symmetry. rewrite andb_true_iff, Z.leb_le, Z.ltb_lt. lia.
Qed.

Lemma grid_get_in_grid e i j :
  in_grid (scale e) i j -> grid_get e i j = Some (viralMap e i j).
Proof.
  intros [Hi Hj]. unfold grid_get.
  rewrite !wrap_index_in_range by lia. reflexivity.
Qed.

(** The cell of a position of the unit square is a cell of the array. *)
Lemma cell_of_in_grid sc a :
  (0 <= sc)%Z ->
  0 <= fst (location a) <= 1 -> 0 <= snd (location a) <= 1 ->
  in_grid sc (fst (cell_of sc a)) (snd (cell_of sc a)).
Proof.
  intros Hsc Hx Hy. apply IZR_le in Hsc. unfold in_grid, cell_of. simpl.
  split; apply py_int_range; split; nra.
Qed.

Section Construction.
Context {G : Generator} {P : SciPy}.

Lemma resample_age_bounds fuel mean : forall x s y s',
  resample_age fuel mean x s = Done (y, s') -> 0 <= y <= 104.
Proof.
  induction fuel as [| fuel IH]; intros x s y s' H; simpl in H.
  - destruct (Rlt_dec x 0) as [H0 | H0];
      [rewrite Rltb_true in H by assumption; discriminate |].
    destruct (Rlt_dec 104 x) as [H1 | H1];
      [rewrite (Rltb_true 104 x), orb_true_r in H by assumption; discriminate |].
    rewrite !Rltb_false in H by lra. simpl in H.
    apply ret_Done in H. destruct H as [-> _]. lra.
  - destruct (Rlt_dec x 0) as [H0 | H0].
    { rewrite Rltb_true in H by assumption. simpl in H.
      apply bind_Done in H. destruct H as [x' [s1 [_ H]]].
      eapply IH; eassumption. }
    destruct (Rlt_dec 104 x) as [H1 | H1].
    { rewrite (Rltb_true 104 x), orb_true_r in H by assumption.
      apply bind_Done in H. destruct H as [x' [s1 [_ H]]].
      eapply IH; eassumption. }
    rewrite !Rltb_false in H by lra. simpl in H.
    apply ret_Done in H. destruct H as [-> _]. lra.
Qed.

Lemma age_distribution_bounds {L : GeneratorLaws G} fuel mean s y s' :
  age_distribution fuel mean s = Done (y, s') -> 0 <= y <= 104.
Proof.
  unfold age_distribution. intros H.
  destruct (Rleb mean 0).
  - unfold bind, draw, ret in H.
    pose proof (choice_range worldPopulationWeights s) as Hc.
    destruct (choice worldPopulationWeights s) as [n s1]. cbn [fst] in Hc.
    pose proof (rand_range s1) as Hu.
    destruct (rand s1) as [u s2]. simpl in Hu.
    inversion H; subst. clear H.
    rewrite worldPopulationWeights_length in Hc.
    assert (Hn : (n <= 20)%nat).
    { assert (n < 21)%nat; [| lia].
      apply Hc. intros Hnil.
      pose proof worldPopulationWeights_length as Hlen.
      rewrite Hnil in Hlen. discriminate. }
    apply le_INR in Hn. pose proof (pos_INR n) as Hn0.
    replace (INR 20) with 20 in Hn by (simpl; lra).
    lra.
  - apply bind_Done in H. destruct H as [x [s1 [_ H]]].
    eapply resample_age_bounds; eassumption.
Qed.

(** What [__init__] returns: the flags and the timers. *)
Lemma init_initial fuel ab cb sb tb g bias s a s' :
  Agent.init fuel ab cb sb tb g bias s = Done (a, s') ->
  travelerBias a = tb
  /\ travelerBiasO a = tb
  /\ infected a = false /\ symptomatic a = false
  /\ alive a = true /\ protected a = false
  /\ infectionTimer a = infectionTime a
  /\ asymptomaticTimer a = asymptomaticTime a
  /\ (infectionTime a = 14 \/ infectionTime a = 28)%Z.
Proof.
  unfold Agent.init. intros H.
  apply bind_Done in H. destruct H as [x [s1 [_ H]]].
  apply bind_Done in H. destruct H as [l [s2 [_ H]]].
  apply bind_Done in H. destruct H as [u [s3 [_ H]]].
  apply bind_Done in H. destruct H as [long [s4 [_ H]]].
  apply bind_Done in H. destruct H as [t [s5 [_ H]]].
  apply ret_Done in H. destruct H as [-> _]. simpl.
  repeat split. destruct long; [right | left]; reflexivity.
Qed.

(** What [__init__] returns: the age and the position. *)
Lemma init_bounds {L : GeneratorLaws G} fuel ab cb sb tb g bias s a s' :
  Agent.init fuel ab cb sb tb g bias s = Done (a, s') ->
  0 <= age a <= 104
  /\ 0 <= fst (location a) <= 1 /\ 0 <= snd (location a) <= 1.
Proof.
  unfold Agent.init. intros H.
  apply bind_Done in H. destruct H as [x [s1 [Hage H]]].
  apply bind_Done in H. destruct H as [l [s2 [Hloc H]]].
  apply bind_Done in H. destruct H as [u [s3 [_ H]]].
  apply bind_Done in H. destruct H as [long [s4 [_ H]]].
  apply bind_Done in H. destruct H as [t [s5 [_ H]]].
  apply ret_Done in H. destruct H as [-> _]. simpl.
  split; [eapply age_distribution_bounds; eassumption |].
  destruct bias as [bias |].
  - apply bind_Done in Hloc. destruct Hloc as [l0 [s0 [_ Hloc]]].
    apply ret_Done in Hloc. destruct Hloc as [-> _]. simpl.
    split; (split; [apply Rmin_glb; [apply Rmax_r | lra] | apply Rmin_r]).
  - apply bind_Done in Hloc. destruct Hloc as [l0 [s0 [Hr Hloc]]].
    apply ret_Done in Hloc. destruct Hloc as [-> _].
    unfold random2, bind, draw, ret in Hr.
    pose proof (rand_range s1) as Hu1.
    destruct (rand s1) as [u1 s1']. simpl in Hu1.
    pose proof (rand_range s1') as Hu2.
    destruct (rand s1') as [u2 s1'']. simpl in Hu2.
    inversion Hr; subst. simpl.
    split; apply np_round_unit; lra.
Qed.

(** ** No read of [viralMap] is out of bounds *)

Lemma bind_IndexError {A B} (m : M A) (k : A -> M B) s :
  bind m k s = IndexError ->
  m s = IndexError \/ exists a s1, m s = Done (a, s1) /\ k a s1 = IndexError.
Proof.
  unfold bind. destruct (m s) as [[a s1] | |]; intros H.
  - right. exists a, s1. split; [reflexivity | assumption].
  - left; reflexivity.
  - discriminate.
Qed.

Lemma resample_location_no_index fuel here sd g : forall c s,
  Agent.resample_location fuel here sd g c s <> IndexError.
Proof.
  induction fuel as [| fuel IH]; intros c s; simpl.
  - destruct (inside c); discriminate.
  - destruct (inside c); [discriminate |].
    intros H. apply bind_IndexError in H.
    destruct H as [H | [c' [s1 [_ H]]]].
    + rewrite normal2_Done in H. discriminate.
    + eapply IH; eassumption.
Qed.

Lemma gather_no_index fuel here sd g remaining : forall acc s,
  Agent.gather fuel remaining here sd g acc s <> IndexError.
Proof.
  induction remaining as [| remaining IH]; intros acc s; simpl.
  - discriminate.
  - intros H. apply bind_IndexError in H.
    destruct H as [H | [c [s1 [_ H]]]].
    + rewrite normal2_Done in H. discriminate.
    + apply bind_IndexError in H.
      destruct H as [H | [c' [s2 [_ H]]]].
      * eapply resample_location_no_index; eassumption.
      * eapply IH; eassumption.
Qed.

Lemma move_no_index fuel self population s :
  Agent.move fuel self population s <> IndexError.
Proof.
  unfold Agent.move. intros H. apply bind_IndexError in H.
  destruct H as [H | [u [s1 [_ H]]]]; [discriminate |].
  destruct (Rltb (socialDistanceBias self) u);
    apply bind_IndexError in H;
    destruct H as [H | [ls [s2 [_ H]]]];
    try discriminate; eapply gather_no_index; eassumption.
Qed.

Lemma progress_no_index a landscape s :
  in_grid (scale landscape) (fst (cell_of (scale landscape) a))
                            (snd (cell_of (scale landscape) a)) ->
  Agent.progress a landscape s <> IndexError.
Proof.
  intros Hg.
  destruct (infected a) eqn:Hi.
  - destruct (Rlt_dec 0 (asymptomaticTimer a)) as [Ht | Ht].
    + rewrite progress_incubating by assumption. discriminate.
    + destruct (Z.eq_dec (infectionTimer a) 1) as [Hn | Hn].
      * rewrite progress_healed by (assumption || lra). discriminate.
      * rewrite progress_sick by (assumption || lra). discriminate.
  - destruct (protected a) eqn:Hp.
    + rewrite progress_immune by assumption. discriminate.
    + rewrite progress_exposed by assumption.
      rewrite grid_get_in_grid by assumption. discriminate.
Qed.

Lemma update_no_index fuel a landscape population s :
  (0 <= scale landscape)%Z ->
  Agent.update fuel a landscape population s <> IndexError.
Proof.
  intros Hsc. unfold Agent.update.
  destruct (alive a); [| discriminate].
  intros H. apply bind_IndexError in H.
  destruct H as [H | [l [s1 [Hm H]]]].
  - eapply move_no_index; eassumption.
  - apply move_inside in Hm. apply inside_iff in Hm.
    revert H. apply progress_no_index.
    apply cell_of_in_grid; simpl; [assumption | lra | lra].
Qed.

End Construction.

(* ================================================================== *)
(** * The replayed runs of the examples *)

Lemma replay_laws : GeneratorLaws replay.
Proof.
  split.
  - intros s. simpl. unfold replay_rand.
    destruct (uniforms s) as [| u us]; simpl; [lra |].
    destruct (Rle_dec 0 u) as [H0 | H0]; [| rewrite Rleb_false by lra; simpl; lra].
    destruct (Rlt_dec u 1) as [H1 | H1].
    + rewrite Rleb_true, Rltb_true by assumption. simpl. lra.
    + rewrite (Rltb_false u 1), andb_false_r by lra. lra.
  - intros p s Hp. simpl. unfold replay_choice.
    destruct p as [| x p]; [congruence |].
    destruct (choices s) as [| c cs]; simpl; lia.
Qed.

Lemma np_round_exact g x z : x * 10 ^ g = IZR z -> np_round g x = IZR z / 10 ^ g.
Proof. intros H. unfold np_round. rewrite H, rint_IZR. reflexivity. Qed.

(** The movement of an agent of travel energy 2 in the middle of the square,
    on the draws of [one_tick]. *)
Lemma resident_moves fuel a population :
  location a = (0.5, 0.5) -> travelerBias a = 2 ->
  locationGranularity a = 2%nat -> socialDistanceBias a = 0 ->
  @Agent.move replay flat fuel a population one_tick
  = Done ((0.52, 0.48), after_move).
Proof.
  intros Hl Ht Hg Hs.
  pose proof (@move_first_candidate replay flat fuel a population one_tick) as H.
  cbv zeta in H. unfold stepScale in H. rewrite Hl, Ht, Hg, Hs in H.
  cbn [rand standard_normal replay replay_rand replay_normal one_tick
       uniforms normals choices gammas fst snd] in H.
  rewrite (Rleb_true 0 0.5), (Rltb_true 0.5 1) in H by lra. simpl andb in H.
  assert (Hr : round_point 2 (0.5 + 2 * / 10 ^ 2 * 1, 0.5 + 2 * / 10 ^ 2 * -1)
               = (0.52, 0.48)).
  { unfold round_point. cbn [fst snd]. f_equal.
    - rewrite (np_round_exact 2 _ 52) by (simpl; lra). simpl. lra.
    - rewrite (np_round_exact 2 _ 48) by (simpl; lra). simpl. lra. }
  rewrite Hr in H. apply H; [lra |].
  apply inside_iff. simpl. lra.
Qed.

(** The movement of an agent of travel energy 0.5 in the middle of the
    square, on the draws of [sick_tick]. *)
Lemma sick_moves fuel a population :
  location a = (0.5, 0.5) -> travelerBias a = 0.5 ->
  locationGranularity a = 2%nat -> socialDistanceBias a = 0 ->
  @Agent.move replay flat fuel a population sick_tick
  = Done ((0.51, 0.49), after_move).
Proof.
  intros Hl Ht Hg Hs.
  pose proof (@move_first_candidate replay flat fuel a population sick_tick) as H.
  cbv zeta in H. unfold stepScale in H. rewrite Hl, Ht, Hg, Hs in H.
  cbn [rand standard_normal replay replay_rand replay_normal sick_tick
       uniforms normals choices gammas fst snd] in H.
  rewrite (Rleb_true 0 0.5), (Rltb_true 0.5 1) in H by lra. simpl andb in H.
  assert (Hr : round_point 2 (0.5 + 0.5 * / 10 ^ 2 * 2, 0.5 + 0.5 * / 10 ^ 2 * -2)
               = (0.51, 0.49)).
  { unfold round_point. cbn [fst snd]. f_equal.
    - rewrite (np_round_exact 2 _ 51) by (simpl; lra). simpl. lra.
    - rewrite (np_round_exact 2 _ 49) by (simpl; lra). simpl. lra. }
  rewrite Hr in H. apply H; [lra |].
  apply inside_iff. simpl. lra.
Qed.

(** The uniform draw that follows the movement in both tapes. *)
Lemma after_move_rand : @rand replay after_move = (0.25, after_draw).
Proof.
  simpl. unfold replay_rand. simpl.
  rewrite (Rleb_true 0 0.25), (Rltb_true 0.25 1) by lra. reflexivity.
Qed.

(** One tick of [incubating]: it moves, and its asymptomatic timer goes from
    0.5 to -0.5. *)
Lemma incubating_tick :
  @Agent.update replay flat 0 incubating small_world [incubating] one_tick
  = Done (set_asymptomaticTimer (set_location incubating (0.52, 0.48)) (0.5 - 1),
          after_move).
Proof.
  rewrite (@update_alive replay flat _ _ _ _ _ (0.52, 0.48) after_move);
    [| reflexivity | apply resident_moves; reflexivity].
  rewrite (@progress_incubating replay); [reflexivity | reflexivity | simpl; lra].
Qed.

(** One tick of [immune] on a saturated environment: it moves, nothing else. *)
Lemma immune_tick :
  @Agent.update replay flat 0 immune saturated_world [immune] one_tick
  = Done (set_location immune (0.52, 0.48), after_move).
Proof.
  rewrite (@update_alive replay flat _ _ _ _ _ (0.52, 0.48) after_move);
    [| reflexivity | apply resident_moves; reflexivity].
  apply (@progress_immune replay); reflexivity.
Qed.

(** One tick of [last_day]: it moves and recovers. *)
Lemma last_day_tick :
  @Agent.update replay flat 0 last_day small_world [last_day] sick_tick
  = Done (heal (sickDay (set_location last_day (0.51, 0.49))), after_move).
Proof.
  rewrite (@update_alive replay flat _ _ _ _ _ (0.51, 0.49) after_move);
    [| reflexivity | apply sick_moves; reflexivity].
  apply (@progress_healed replay); [reflexivity | simpl; lra | reflexivity].
Qed.
(** [agent(travelerBias=2)] on the draws of [birth] returns [resident]. *)
Lemma resident_born :
  @Agent.init replay flat 0 (-1) 0 0 2 2 None birth = Done (resident, after_draw).
Proof.
  unfold Agent.init, age_distribution, random2, bind, draw, ret.
  rewrite (Rleb_true (-1) 0) by lra.
  cbn [rand choice gamma_draw replay replay_rand replay_choice replay_gamma
       birth uniforms normals choices gammas fst snd gamma_cdf flat].
  rewrite worldPopulationWeights_length.
  Rdecide. cbn [andb Nat.min Nat.sub].
  cbn [replay_rand replay_gamma uniforms normals choices gammas].
  Rdecide. cbn [andb].
  cbn [replay_gamma uniforms normals choices gammas].
  replace (5 * INR 6 + 4 * 0) with 30 by (simpl; lra).
  replace (round_point 2 (0.5, 0.5)) with ((0.5, 0.5) : point).
  2:{ unfold round_point. cbn [fst snd].
      rewrite (np_round_exact 2 _ 50) by (simpl; lra).
      f_equal; simpl; lra. }
  reflexivity.
Qed.

(** One tick of [resident] on a field of zeros: it moves to the cell (52, 48)
    and is not infected. *)
Lemma resident_tick :
  @Agent.update replay flat 0 resident small_world [resident] one_tick
  = Done (set_location resident (0.52, 0.48), after_draw).
Proof.
  rewrite (@update_alive replay flat _ _ _ _ _ (0.52, 0.48) after_move);
    [| reflexivity | apply resident_moves; reflexivity].
  rewrite (@progress_exposed replay) by reflexivity.
  assert (Hcell : cell_of (scale small_world) (set_location resident (0.52, 0.48))
                  = (52, 48)%Z).
  { unfold cell_of. cbn [location set_location fst snd scale small_world
                         Environment.init].
    replace (0.52 * IZR (10 ^ Z.of_nat 2)) with (IZR 52) by (simpl; lra).
    replace (0.48 * IZR (10 ^ Z.of_nat 2)) with (IZR 48) by (simpl; lra).
    rewrite !py_int_IZR. reflexivity. }
  rewrite Hcell. cbn [fst snd].
  rewrite grid_get_in_grid by (unfold in_grid; simpl; lia).
  rewrite after_move_rand. cbn [fst snd viralMap small_world Environment.init].
  rewrite Rltb_false by lra. reflexivity.
Qed.

(** One tick of [first_sick_day]: it moves, and comes out with the travel
    energy 0.5, dead or alive. *)
Lemma first_sick_day_tick :
  exists a',
    @Agent.update replay flat 0 first_sick_day small_world [first_sick_day]
      one_tick = Done (a', after_draw)
    /\ travelerBias a' = 0.5.
Proof.
  eexists. split.
  - rewrite (@update_alive replay flat _ _ _ _ _ (0.52, 0.48) after_move);
      [| reflexivity | apply resident_moves; reflexivity].
    rewrite (@progress_sick replay);
      [| reflexivity | simpl; lra | simpl; lia].
    rewrite after_move_rand. reflexivity.
  - cbn [fst]. destruct (Rleb _ _); reflexivity.
Qed.

(* ================================================================== *)
(** * The mortality table *)

Lemma ageFactor_table :
  (forall x, x <= 39 -> ageFactor x = 0.002)
  /\ (forall x, 40 <= x <= 49 -> ageFactor x = 0.004)
  /\ (forall x, 50 <= x <= 59 -> ageFactor x = 0.013)
  /\ (forall x, 60 <= x <= 69 -> ageFactor x = 0.036)
  /\ (forall x, 70 <= x <= 79 -> ageFactor x = 0.08)
  /\ (forall x, 80 <= x -> ageFactor x = 0.148).
Proof.
  unfold ageFactor.
  repeat split; intros x Hx;
    repeat match goal with
      | |- context [Rleb ?a ?b] =>
          first [ rewrite (Rleb_true a b) by lra
                | rewrite (Rleb_false a b) by lra ]
      end; reflexivity.
Qed.

(** Between two brackets of the table, and above the last one, the factor is
    the one of the oldest. *)
Lemma ageFactor_between x :
  39 < x < 40 \/ 49 < x < 50 \/ 59 < x < 60 \/ 69 < x < 70 \/ 79 < x ->
  ageFactor x = 0.148.
Proof.
  unfold ageFactor. intros Hx.
  destruct Hx as [Hx | [Hx | [Hx | [Hx | Hx]]]];
    repeat match goal with
      | |- context [Rleb ?a ?b] =>
          first [ rewrite (Rleb_true a b) by lra
                | rewrite (Rleb_false a b) by lra ]
      | |- context [(true && false)%bool] => cbn [andb]
      | |- context [(false && _)%bool] => cbn [andb]
      end; reflexivity.
Qed.

Lemma ageFactor_range x : 0.002 <= ageFactor x <= 0.148.
Proof.
  unfold ageFactor.
  repeat match goal with
    | |- context [if ?b then _ else _] => destruct b
    end; lra.
Qed.

Lemma deathFactor_range b : 0 <= deathFactor b <= 0.105.
Proof. destruct b; simpl; lra. Qed.

(** The threshold of the death check, as a power of a positive base. *)
Lemma survivalThreshold_Rpower a :
  survivalThreshold a
  = Rpower (1 - Rmax (ageFactor (age a)) (deathFactor (preexistingCondition a)))
           (1 / IZR (infectionTime a)).
Proof.
  unfold survivalThreshold. apply fpow_Rpower.
  pose proof (ageFactor_range (age a)).
  pose proof (deathFactor_range (preexistingCondition a)).
  assert (Rmax (ageFactor (age a)) (deathFactor (preexistingCondition a)) <= 0.148)
    by (apply Rmax_lub; lra).
  lra.
Qed.

(* ================================================================== *)
(** * The numeric helpers on small inputs *)

Lemma Int_part_between x z : IZR z <= x < IZR z + 1 -> Int_part x = z.
Proof. intros H. symmetry. apply Int_part_spec. lra. Qed.

Example py_int_truncates :
  py_int 2.7 = 2%Z /\ py_int (-2.7) = (-2)%Z /\ py_int 99.5 = 99%Z.
Proof.
  unfold py_int. repeat split.
  - rewrite Rleb_true by lra. apply Int_part_between. lra.
  - rewrite Rleb_false by lra.
    rewrite (Int_part_between (- -2.7) 2) by lra. reflexivity.
  - rewrite Rleb_true by lra. apply Int_part_between. lra.
Qed.

Example rint_ties_to_even :
  rint 0.5 = 0%Z /\ rint 1.5 = 2%Z /\ rint 2.5 = 2%Z /\ rint 2.4 = 2%Z
  /\ rint 2.6 = 3%Z.
Proof.
  unfold rint, frac_part.
  rewrite (Int_part_between 0.5 0), (Int_part_between 1.5 1),
    (Int_part_between 2.5 2), (Int_part_between 2.4 2),
    (Int_part_between 2.6 2) by lra.
  repeat split; Rdecide; reflexivity.
Qed.

Example np_round_two_decimals : np_round 2 0.517 = 0.52.
Proof.
  unfold np_round, rint, frac_part.
  rewrite (Int_part_between (0.517 * 10 ^ 2) 51) by (simpl; lra).
  rewrite (Rltb_false (0.517 * 10 ^ 2 - IZR 51)) by (simpl; lra).
  rewrite Rltb_true by (simpl; lra).
  simpl. lra.
Qed.

Example range_of_the_block : range (-1) 2 = [-1; 0; 1]%Z.
Proof. reflexivity. Qed.

Example block_of_the_corner :
  Environment.block 1 0 0
  = [(-1, -1); (-1, 0); (-1, 1); (0, -1); (0, 0); (0, 1);
     (1, -1); (1, 0); (1, 1)]%Z.
Proof. reflexivity. Qed.

Example argmin_first_least : argmin [3; 1; 2; 1] = 1%nat.
Proof. unfold argmin, argmin_from. Rdecide. reflexivity. Qed.

Example argsort_by_key : argsort [0.3; 0; 0.2; 0.1] = [1; 3; 2; 0]%nat.
Proof.
  unfold argsort. cbn [length seq fold_left insert_position nth].
  Rdecide. cbn [insert_position nth]. Rdecide.
  cbn [insert_position nth]. Rdecide. reflexivity.
Qed.

Example wrap_index_numpy :
  wrap_index 101 100 = Some 100%Z /\ wrap_index 101 (-1) = Some 100%Z
  /\ wrap_index 101 101 = None /\ wrap_index 101 (-102) = None.
Proof. repeat split. Qed.

Example fpow_of_zero : fpow 0 0 = 1 /\ fpow 0 0.5 = 0.
Proof.
  unfold fpow. split.
  - rewrite Reqb_true by reflexivity. reflexivity.
  - rewrite Reqb_false, Rleb_true by lra. reflexivity.
Qed.

Example ageFactor_samples :
  ageFactor 30 = 0.002 /\ ageFactor 45 = 0.004 /\ ageFactor 39.5 = 0.148
  /\ ageFactor 85 = 0.148.
Proof. unfold ageFactor. repeat split; Rdecide; reflexivity. Qed.

(* ================================================================== *)
(** * The bound on the resampling loops

    A call that returns within a bound returns the same result within any
    larger bound: the bound only cuts off runs that have not returned yet. *)

Section Fuel.
Context {G : Generator} {P : SciPy}.

Lemma resample_age_more fuel mean : forall x s r k,
  resample_age fuel mean x s = Done r ->
  resample_age (fuel + k) mean x s = Done r.
Proof.
  induction fuel as [| fuel IH]; intros x s r k H.
  - simpl in H. destruct k; simpl; destruct (_ || _)%bool;
      try discriminate; assumption.
  - simpl in *. destruct (_ || _)%bool; [| assumption].
    apply bind_Done in H. destruct H as [x' [s1 [Hn H]]].
    unfold bind. rewrite Hn. apply IH. assumption.
Qed.

Lemma age_distribution_more fuel mean s r k :
  age_distribution fuel mean s = Done r ->
  age_distribution (fuel + k) mean s = Done r.
Proof.
  unfold age_distribution. destruct (Rleb mean 0); [tauto |].
  intros H. apply bind_Done in H. destruct H as [x [s1 [Hn H]]].
  unfold bind. rewrite Hn. apply resample_age_more. assumption.
Qed.

Lemma resample_location_more fuel here sd g : forall c s r k,
  Agent.resample_location fuel here sd g c s = Done r ->
  Agent.resample_location (fuel + k) here sd g c s = Done r.
Proof.
  induction fuel as [| fuel IH]; intros c s r k H.
  - simpl in H. destruct k; simpl; destruct (inside c);
      try discriminate; assumption.
  - simpl in *. destruct (inside c); [assumption |].
    apply bind_Done in H. destruct H as [c' [s1 [Hn H]]].
    unfold bind. rewrite Hn. apply IH. assumption.
Qed.

Lemma gather_more fuel here sd g k remaining : forall acc s r,
  Agent.gather fuel remaining here sd g acc s = Done r ->
  Agent.gather (fuel + k) remaining here sd g acc s = Done r.
Proof.
  induction remaining as [| remaining IH]; intros acc s r H; simpl in *.
  - assumption.
  - apply bind_Done in H. destruct H as [c [s1 [Hn H]]].
    apply bind_Done in H. destruct H as [c' [s2 [Hr H]]].
    unfold bind at 1. rewrite Hn.
    unfold bind at 1. rewrite (resample_location_more _ _ _ _ _ _ _ k Hr).
    apply IH. assumption.
Qed.

Lemma move_more fuel self population s r k :
  Agent.move fuel self population s = Done r ->
  Agent.move (fuel + k) self population s = Done r.
Proof.
  unfold Agent.move. intros H.
  apply bind_Done in H. destruct H as [u [s1 [Hu H]]].
  unfold bind at 1. rewrite Hu.
  destruct (Rltb (socialDistanceBias self) u);
    apply bind_Done in H; destruct H as [ls [s2 [Hg H]]];
    unfold bind; rewrite (gather_more _ _ _ _ k _ _ _ _ Hg); assumption.
Qed.

Lemma update_more fuel self landscape population s r k :
  Agent.update fuel self landscape population s = Done r ->
  Agent.update (fuel + k) self landscape population s = Done r.
Proof.
  unfold Agent.update. destruct (alive self); [| tauto].
  intros H. apply bind_Done in H. destruct H as [l [s1 [Hm H]]].
  unfold bind. rewrite (move_more _ _ _ _ _ k Hm). assumption.
Qed.

Lemma init_more fuel ab cb sb tb g bias s r k :
  Agent.init fuel ab cb sb tb g bias s = Done r ->
  Agent.init (fuel + k) ab cb sb tb g bias s = Done r.
Proof.
  unfold Agent.init. intros H.
  apply bind_Done in H. destruct H as [x [s1 [Hage H]]].
  unfold bind at 1. rewrite (age_distribution_more _ _ _ _ k Hage).
  assumption.
Qed.

(** The constructor with a mean age that is not positive has no loop: it
    returns whatever the bound. *)
Lemma init_world_returns fuel ab cb sb tb g bias s :
  ab <= 0 -> exists a s', Agent.init fuel ab cb sb tb g bias s = Done (a, s').
Proof.
  intros Hab. unfold Agent.init, age_distribution.
  rewrite Rleb_true by assumption.
  destruct bias as [b |];
    unfold bind, draw, ret, random2, normal2, normal;
    repeat (match goal with
            | |- context [let (_, _) := ?e in _] => destruct e
            | |- context [if ?c then _ else _] => destruct c
            end; unfold bind, draw, ret);
    eauto.
Qed.

End Fuel.

(* ================================================================== *)
(** * The environment, cell by cell: facts *)

Lemma reaches_iff sc aoe p x y :
  reaches sc aoe p x y = true
  <-> Environment.contributes p = true /\ in_grid sc x y
      /\ (chebyshev (fst (cell_of sc p)) (snd (cell_of sc p)) x y <= aoe)%Z.
Proof.
  unfold reaches, in_grid.
  rewrite !andb_true_iff, !Z.leb_le. tauto.
Qed.

Lemma spread_cellwise att sc aoe m p x y :
  Environment.spread att sc aoe m p x y = cell_effect att sc aoe p x y (m x y).
Proof.
  unfold cell_effect. destruct (reaches sc aoe p x y) eqn:Hr.
  - apply reaches_iff in Hr. destruct Hr as (Hc & Hg & Hd).
    apply spread_inside; assumption.
  - apply spread_elsewhere.
    destruct (Environment.contributes p) eqn:Hc; [| left; reflexivity].
    destruct (Z_le_dec (chebyshev (fst (cell_of sc p)) (snd (cell_of sc p)) x y)
                aoe) as [Hd | Hd]; [| right; right; lia].
    right; left. intros Hg.
    assert (reaches sc aoe p x y = true) by (apply reaches_iff; tauto).
    congruence.
Qed.

Lemma fold_spread_cellwise att sc aoe population x y : forall m,
  fold_left (Environment.spread att sc aoe) population m x y
  = fold_left (fun v p => cell_effect att sc aoe p x y v) population (m x y).
Proof.
  induction population as [| p population IH]; intros m; simpl.
  - reflexivity.
  - rewrite IH, spread_cellwise. reflexivity.
Qed.

Lemma run_environment_config populations : forall e,
  attenuation (run_environment e populations) = attenuation e
  /\ scale (run_environment e populations) = scale e
  /\ AOE (run_environment e populations) = AOE e.
Proof.
  unfold run_environment.
  induction populations as [| pop populations IH]; intros e; simpl.
  - repeat split.
  - destruct (IH (Environment.update e pop)) as (-> & -> & ->).
    repeat split.
Qed.

(** ** The deposit as a function of the load *)

Lemma b2r_fpow_nonneg b att y : 0 <= b2r b * fpow att y.
Proof. pose proof (fpow_nonneg att y). destruct b; unfold b2r; lra. Qed.

Lemma deposit_monotone att p d v v' :
  v <= v' -> deposit att p d v <= deposit att p d v'.
Proof.
  intros Hv. unfold deposit.
  set (w := fpow att (IZR d / 2)).
  apply Rle_max_compat_r.
  apply Rplus_le_compat_r.
  apply Rle_min_compat_r. lra.
Qed.

Lemma deposit_nonneg att p d v : 0 <= deposit att p d v.
Proof. unfold deposit. apply Rmax_r. Qed.

(** Without cleaning, on a load that is not negative: the clamped sum. *)
Lemma deposit_without_cleaning att p d v :
  cleanlinessBias p = 0 -> 0 <= v ->
  deposit att p d v = Rmin (v + b2r (infected p) * fpow att (IZR d / 2)) 1.
Proof.
  intros Hc Hv. unfold deposit. rewrite Hc.
  pose proof (fpow_nonneg att (IZR d / 2)) as Hw.
  assert (Hb : 0 <= b2r (infected p) * fpow att (IZR d / 2))
    by apply b2r_fpow_nonneg.
  rewrite Rmax_left; [lra |].
  assert (0 <= Rmin (v + b2r (infected p) * fpow att (IZR d / 2)) 1)
    by (apply Rmin_glb; lra).
  lra.
Qed.

Lemma cell_effect_nonneg att sc aoe p x y v :
  0 <= v -> 0 <= cell_effect att sc aoe p x y v.
Proof.
  intros Hv. unfold cell_effect.
  destruct (reaches sc aoe p x y); [apply deposit_nonneg | assumption].
Qed.

Lemma cell_effect_monotone att sc aoe p x y v v' :
  v <= v' -> cell_effect att sc aoe p x y v <= cell_effect att sc aoe p x y v'.
Proof.
  intros Hv. unfold cell_effect.
  destruct (reaches sc aoe p x y); [apply deposit_monotone |]; assumption.
Qed.

Lemma fold_cell_effect_monotone att sc aoe x y population : forall v v',
  v <= v' ->
  fold_left (fun v p => cell_effect att sc aoe p x y v) population v
  <= fold_left (fun v p => cell_effect att sc aoe p x y v) population v'.
Proof.
  induction population as [| p population IH]; intros v v' Hv; simpl.
  - assumption.
  - apply IH. apply cell_effect_monotone. assumption.
Qed.

Lemma fold_cell_effect_nonneg att sc aoe x y population : forall v,
  0 <= v ->
  0 <= fold_left (fun v p => cell_effect att sc aoe p x y v) population v.
Proof.
  induction population as [| p population IH]; intros v Hv; simpl.
  - assumption.
  - apply IH. apply cell_effect_nonneg. assumption.
Qed.



(** A load of 1 stays 1 under an agent that does not clean. *)
Lemma cell_effect_keeps_one att sc aoe p x y :
  cleanlinessBias p = 0 -> cell_effect att sc aoe p x y 1 = 1.
Proof.
  intros Hc. unfold cell_effect. destruct (reaches sc aoe p x y); [| reflexivity].
  rewrite deposit_without_cleaning by (assumption || lra).
  pose proof (b2r_fpow_nonneg (infected p) att
    (IZR (taxicab (fst (cell_of sc p)) (snd (cell_of sc p)) x y) / 2)).
  apply Rmin_right. lra.
Qed.

Lemma fold_cell_effect_keeps_one att sc aoe x y population :
  Forall (fun p => cleanlinessBias p = 0) population ->
  fold_left (fun v p => cell_effect att sc aoe p x y v) population 1 = 1.
Proof.
  induction 1 as [| p population Hp _ IH]; simpl; [reflexivity |].
  rewrite cell_effect_keeps_one by assumption. exact IH.
Qed.

(** Without cleaning the load does not drop; without an infected agent and
    with cleaning effectiveness that is not negative it does not rise. *)
Lemma cell_effect_raises att sc aoe p x y v :
  cleanlinessBias p = 0 -> 0 <= v <= 1 -> v <= cell_effect att sc aoe p x y v.
Proof.
  intros Hc [Hv0 Hv1]. unfold cell_effect.
  destruct (reaches sc aoe p x y); [| lra].
  rewrite deposit_without_cleaning by assumption.
  pose proof (b2r_fpow_nonneg (infected p) att
    (IZR (taxicab (fst (cell_of sc p)) (snd (cell_of sc p)) x y) / 2)).
  apply Rmin_glb; [| assumption].
  lra.
Qed.

Lemma cell_effect_lowers att sc aoe p x y v :
  infected p = false -> 0 <= cleanlinessBias p -> 0 <= v ->
  cell_effect att sc aoe p x y v <= v.
Proof.
  intros Hi Hc Hv. unfold cell_effect.
  destruct (reaches sc aoe p x y); [| lra].
  unfold deposit. rewrite Hi. simpl b2r.
  pose proof (fpow_nonneg att
    (IZR (taxicab (fst (cell_of sc p)) (snd (cell_of sc p)) x y) / 2)) as Hw.
  apply Rmax_lub; [| assumption].
  pose proof (Rmin_l (v + 0 * fpow att
    (IZR (taxicab (fst (cell_of sc p)) (snd (cell_of sc p)) x y) / 2)) 1).
  assert (0 <= cleanlinessBias p * fpow att
    (IZR (taxicab (fst (cell_of sc p)) (snd (cell_of sc p)) x y) / 2))
    by (apply Rmult_le_pos; assumption).
  lra.
Qed.

Lemma fold_cell_effect_unreached att sc aoe x y population : forall v,
  Forall (fun p => reaches sc aoe p x y = false) population ->
  fold_left (fun v p => cell_effect att sc aoe p x y v) population v = v.
Proof.
  induction population as [| p population IH]; intros v Hpop; simpl.
  - reflexivity.
  - inversion Hpop as [| ? ? Hp Hrest]; subst.
    unfold cell_effect at 2. rewrite Hp. apply IH. assumption.
Qed.

Lemma chebyshev_nonneg i j x y : (0 <= chebyshev i j x y)%Z.
Proof. unfold chebyshev. lia. Qed.

Lemma reaches_negative_AOE sc aoe p x y : (aoe < 0)%Z -> reaches sc aoe p x y = false.
Proof.
  intros Haoe. destruct (reaches sc aoe p x y) eqn:Hr; [| reflexivity].
  apply reaches_iff in Hr. destruct Hr as (_ & _ & Hd).
  pose proof (chebyshev_nonneg (fst (cell_of sc p)) (snd (cell_of sc p)) x y).
  lia.
Qed.

Lemma reaches_noncontributor sc aoe p x y :
  Environment.contributes p = false -> reaches sc aoe p x y = false.
Proof. intros Hc. unfold reaches. rewrite Hc. reflexivity. Qed.

Lemma update_cellwise e population x y :
  viralMap (Environment.update e population) x y
  = fold_left (fun v p => cell_effect (attenuation e) (scale e) (AOE e) p x y v)
      population (viralMap e x y) * attenuation e.
Proof. simpl. rewrite fold_spread_cellwise. reflexivity. Qed.

Lemma fold_cell_effect_unit att sc aoe x y population : forall v,
  Forall (fun p => 0 <= cleanlinessBias p) population ->
  0 <= v <= 1 ->
  0 <= fold_left (fun v p => cell_effect att sc aoe p x y v) population v <= 1.
Proof.
  induction population as [| p population IH]; intros v Hpop Hv; simpl.
  - assumption.
  - inversion Hpop; subst. apply IH; [assumption |].
    unfold cell_effect. destruct (reaches sc aoe p x y); [| assumption].
    apply deposit_unit; assumption.
Qed.

Lemma fold_cell_effect_raises att sc aoe x y population : forall v,
  Forall (fun p => cleanlinessBias p = 0) population ->
  0 <= v <= 1 ->
  v <= fold_left (fun v p => cell_effect att sc aoe p x y v) population v.
Proof.
  induction population as [| p population IH]; intros v Hpop Hv; simpl.
  - lra.
  - inversion Hpop as [| ? ? Hp Hrest]; subst.
    pose proof (cell_effect_raises att sc aoe p x y v Hp Hv) as Hup.
    assert (Hunit : 0 <= cell_effect att sc aoe p x y v <= 1).
    { unfold cell_effect. destruct (reaches sc aoe p x y); [| assumption].
      apply deposit_unit; [lra | assumption]. }
    specialize (IH _ Hrest Hunit). lra.
Qed.

Lemma fold_cell_effect_lowers att sc aoe x y population : forall v,
  Forall (fun p => (alive p && infected p)%bool = false
                   /\ 0 <= cleanlinessBias p) population ->
  0 <= v ->
  fold_left (fun v p => cell_effect att sc aoe p x y v) population v <= v.
Proof.
  induction population as [| p population IH]; intros v Hpop Hv; simpl.
  - lra.
  - inversion Hpop as [| ? ? [Hp Hc] Hrest]; subst.
    assert (Hlow : cell_effect att sc aoe p x y v <= v).
    { destruct (alive p) eqn:Ha; simpl in Hp.
      - apply cell_effect_lowers; assumption.
      - unfold cell_effect. rewrite reaches_noncontributor; [lra |].
        unfold Environment.contributes. rewrite Ha. reflexivity. }
    pose proof (cell_effect_nonneg att sc aoe p x y v Hv) as Hnn.
    specialize (IH _ Hrest Hnn). lra.
Qed.

(* ================================================================== *)
(** * The agent: more invariants *)

Section MoreAgentFacts.
Context {G : Generator} {P : SciPy}.

Lemma evolves_in_evolves n a b : evolves_in n a b -> evolves a b.
Proof.
  induction 1; [apply evolves_refl | eapply evolves_step; eassumption].
Qed.

Lemma progressed_infectionTimer a a' :
  progressed a a' ->
  (1 <= infectionTimer a <= infectionTime a)%Z ->
  (1 <= infectionTimer a' <= infectionTime a')%Z.
Proof. intros H Hinv. destruct H; simpl in *; lia. Qed.

Lemma update_infectionTimer fuel a landscape population s a' s' :
  Agent.update fuel a landscape population s = Done (a', s') ->
  (1 <= infectionTimer a <= infectionTime a)%Z ->
  (1 <= infectionTimer a' <= infectionTime a')%Z.
Proof.
  intros H Hinv. apply update_cases in H.
  destruct H as [[_ [-> _]] | [_ [l [s1 [_ [_ [_ Hp]]]]]]]; [assumption |].
  apply progressed_infectionTimer in Hp; assumption.
Qed.

Lemma init_preexisting fuel ab cb sb tb g bias s a s' :
  Agent.init fuel ab cb sb tb g bias s = Done (a, s') ->
  preexistingCondition a = true -> infectionTime a = 28%Z.
Proof.
  unfold Agent.init. intros H.
  apply bind_Done in H. destruct H as [x [s1 [_ H]]].
  apply bind_Done in H. destruct H as [l [s2 [_ H]]].
  apply bind_Done in H. destruct H as [u [s3 [_ H]]].
  apply bind_Done in H. destruct H as [long [s4 [Hlong H]]].
  apply bind_Done in H. destruct H as [t [s5 [_ H]]].
  apply ret_Done in H. destruct H as [-> _]. simpl.
  intros Hpre. rewrite Hpre in Hlong.
  apply ret_Done in Hlong. destruct Hlong as [-> _]. reflexivity.
Qed.

Lemma progressed_flags a a' :
  progressed a a' ->
  (infected a = true -> protected a = false) ->
  (infected a' = true -> protected a' = false)
  /\ (protected a = true -> protected a' = true)
  /\ (alive a' = true -> alive a = true).
Proof.
  intros H Hinv. destruct H; simpl in *; repeat split; auto; congruence.
Qed.

Lemma update_flags fuel a landscape population s a' s' :
  Agent.update fuel a landscape population s = Done (a', s') ->
  (infected a = true -> protected a = false) ->
  (infected a' = true -> protected a' = false)
  /\ (protected a = true -> protected a' = true)
  /\ (alive a' = true -> alive a = true).
Proof.
  intros H Hinv. apply update_cases in H.
  destruct H as [[_ [-> _]] | [Ha [l [s1 [_ [_ [_ Hp]]]]]]]; [tauto |].
  apply progressed_flags in Hp; [| exact Hinv]. simpl in Hp.
  destruct Hp as (H1 & H2 & _). repeat split; auto.
Qed.

(** ** The new location lies on the grid of the agent *)

Lemma resample_location_rounded fuel here sd g : forall c s l s',
  rounded g c ->
  Agent.resample_location fuel here sd g c s = Done (l, s') -> rounded g l.
Proof.
  induction fuel as [| fuel IH]; intros c s l s' Hc H; simpl in H.
  - destruct (inside c); [| discriminate].
    apply ret_Done in H. destruct H as [-> _]. assumption.
  - destruct (inside c).
    + apply ret_Done in H. destruct H as [-> _]. assumption.
    + apply bind_Done in H. destruct H as [raw [s1 [_ H]]].
      eapply IH; [| eassumption]. exists raw. reflexivity.
Qed.

Lemma gather_rounded fuel here sd g remaining : forall acc s ls s',
  Forall (rounded g) acc ->
  Agent.gather fuel remaining here sd g acc s = Done (ls, s') ->
  Forall (rounded g) ls.
Proof.
  induction remaining as [| remaining IH]; intros acc s ls s' Hacc H; simpl in H.
  - apply ret_Done in H. destruct H as [-> _]. assumption.
  - apply bind_Done in H. destruct H as [raw [s1 [_ H]]].
    apply bind_Done in H. destruct H as [c [s2 [Hc H]]].
    apply resample_location_rounded in Hc; [| exists raw; reflexivity].
    eapply IH; [| eassumption].
    apply Forall_app. split; [assumption | constructor; [assumption | constructor]].
Qed.

Lemma inside_rounded_on_inner_grid g l :
  rounded g l -> inside l = true -> on_inner_grid g l.
Proof.
  intros [raw ->] Hin. apply inside_iff in Hin. simpl in Hin.
  destruct Hin as [Hx Hy].
  pose proof (pow10_pos g) as Hp.
  assert (Hz : 10 ^ g = IZR (10 ^ Z.of_nat g)).
  { rewrite <- pow_IZR. reflexivity. }
  assert (Hk : forall k, 0 < IZR k / 10 ^ g < 1 -> (0 < k < 10 ^ Z.of_nat g)%Z).
  { intros k [H0 H1]. split.
    - apply lt_IZR. apply Rmult_lt_reg_r with (/ 10 ^ g).
      + apply Rinv_0_lt_compat. assumption.
      + unfold Rdiv in H0. lra.
    - apply lt_IZR. rewrite <- Hz.
      apply Rmult_lt_reg_r with (/ 10 ^ g).
      + apply Rinv_0_lt_compat. assumption.
      + unfold Rdiv in H1. rewrite Rinv_r by lra. lra. }
  exists (rint (fst raw * 10 ^ g)), (rint (snd raw * 10 ^ g)).
  unfold np_round in Hx, Hy.
  split; [reflexivity |]. split; apply Hk; assumption.
Qed.

Lemma move_on_inner_grid fuel self population s l s' :
  Agent.move fuel self population s = Done (l, s') ->
  on_inner_grid (locationGranularity self) l.
Proof.
  intros H. pose proof (move_inside _ _ _ _ _ _ H) as Hin.
  apply inside_rounded_on_inner_grid; [| assumption].
  unfold Agent.move in H.
  apply bind_Done in H. destruct H as [u [s1 [_ H]]].
  destruct (Rltb (socialDistanceBias self) u).
  - apply bind_Done in H. destruct H as [ls [s2 [Hg H]]].
    apply ret_Done in H. destruct H as [-> _].
    pose proof (gather_inside _ _ _ _ _ _ _ _ _ (Forall_nil _) Hg) as [_ Hlen].
    apply gather_rounded in Hg; [| constructor].
    rewrite Forall_forall in Hg. apply Hg. apply nth_In. simpl in Hlen. lia.
  - apply bind_Done in H. destruct H as [ls [s2 [Hg H]]].
    apply ret_Done in H. destruct H as [-> _].
    pose proof (gather_inside _ _ _ _ _ _ _ _ _ (Forall_nil _) Hg) as [_ Hlen].
    apply gather_rounded in Hg; [| constructor].
    rewrite Forall_forall in Hg. apply Hg. apply nth_In.
    rewrite <- (length_map (gaussian_kde
                 (closestFriends population (location self))) ls).
    apply argmin_lt. destruct ls; discriminate.
Qed.

End MoreAgentFacts.

(* ================================================================== *)
(** * [argmin] and [argsort] *)



Lemma insert_position_permutation keys k sorted :
  Permutation (insert_position keys k sorted) (k :: sorted).
Proof.
  induction sorted as [| j rest IH]; simpl.
  - apply Permutation_refl.
  - destruct (Rltb (nth k keys 0) (nth j keys 0)).
    + apply Permutation_refl.
    + eapply Permutation_trans; [apply perm_skip; exact IH | apply perm_swap].
Qed.

Lemma fold_insert_permutation keys ks : forall sorted,
  Permutation (fold_left (fun sorted k => insert_position keys k sorted) ks sorted)
              (rev ks ++ sorted).
Proof.
  induction ks as [| k ks IH]; intros sorted; simpl.
  - apply Permutation_refl.
  - eapply Permutation_trans; [apply IH |].
    rewrite <- app_assoc. simpl.
    apply Permutation_app_head. apply insert_position_permutation.
Qed.

(** [argsort] returns every position once. *)
Lemma argsort_permutation keys :
  Permutation (argsort keys) (seq 0 (length keys)).
Proof.
  unfold argsort.
  eapply Permutation_trans; [apply fold_insert_permutation |].
  rewrite app_nil_r. apply Permutation_sym, Permutation_rev.
Qed.

Lemma insert_position_sorted keys k sorted :
  StronglySorted (key_le keys) sorted ->
  StronglySorted (key_le keys) (insert_position keys k sorted).
Proof.
  induction 1 as [| j rest Hrest IH Hj]; simpl.
  - constructor; constructor.
  - destruct (Rlt_dec (nth k keys 0) (nth j keys 0)) as [Hlt | Hge].
    + rewrite Rltb_true by assumption.
      constructor; [constructor; assumption |].
      constructor; [unfold key_le; lra |].
      rewrite Forall_forall in *. intros i Hi. specialize (Hj i Hi).
      unfold key_le in *. lra.
    + rewrite Rltb_false by lra.
      constructor; [assumption |].
      rewrite Forall_forall in *. intros i Hi.
      apply (Permutation_in _ (insert_position_permutation keys k rest)) in Hi.
      destruct Hi as [<- | Hi]; [unfold key_le; lra | apply Hj; assumption].
Qed.

(** [argsort] returns the positions in nondecreasing order of key. *)
Lemma argsort_sorted keys : StronglySorted (key_le keys) (argsort keys).
Proof.
  unfold argsort.
  assert (H : forall ks sorted, StronglySorted (key_le keys) sorted ->
            StronglySorted (key_le keys)
              (fold_left (fun sorted k => insert_position keys k sorted) ks sorted)).
  { induction ks as [| k ks IH]; intros sorted Hs; simpl; [assumption |].
    apply IH. apply insert_position_sorted. assumption. }
  apply H. constructor.
Qed.

Lemma argsort_length keys : length (argsort keys) = length keys.
Proof.
  rewrite (Permutation_length (argsort_permutation keys)). apply length_seq.
Qed.

(* ================================================================== *)
(** * The course of an infection over several calls *)

Section Illness.
Context {G : Generator} {P : SciPy}.

Lemma update_alive_back fuel a landscape population s a' s' :
  Agent.update fuel a landscape population s = Done (a', s') ->
  alive a' = true -> alive a = true.
Proof.
  intros H Ha'. apply update_cases in H.
  destruct H as [[_ [-> _]] | [Ha _]]; assumption.
Qed.

Lemma update_incubating fuel a landscape population s a' s' :
  alive a = true -> infected a = true -> 0 < asymptomaticTimer a ->
  Agent.update fuel a landscape population s = Done (a', s') ->
  exists l, inside l = true
    /\ a' = set_asymptomaticTimer (set_location a l) (asymptomaticTimer a - 1).
Proof.
  intros Ha Hi Ht H. apply update_cases in H.
  destruct H as [[Hd _] | [_ [l [s1 [_ [Hl [Hp _]]]]]]]; [congruence |].
  rewrite progress_incubating in Hp by assumption.
  inversion Hp; subst. exists l. split; [assumption | reflexivity].
Qed.

Lemma update_symptomatic fuel a landscape population s a' s' :
  alive a = true -> infected a = true -> asymptomaticTimer a <= 0 ->
  Agent.update fuel a landscape population s = Done (a', s') ->
  exists l, inside l = true
    /\ ((infectionTimer a = 1%Z /\ a' = heal (sickDay (set_location a l)))
        \/ (infectionTimer a <> 1%Z
            /\ (a' = sickDay (set_location a l)
                \/ a' = set_alive (sickDay (set_location a l)) false))).
Proof.
  intros Ha Hi Ht H. apply update_cases in H.
  destruct H as [[Hd _] | [_ [l [s1 [_ [Hl [Hp _]]]]]]]; [congruence |].
  exists l. split; [assumption |].
  destruct (Z.eq_dec (infectionTimer a) 1) as [Hn | Hn].
  - left. rewrite progress_healed in Hp by assumption.
    inversion Hp; subst. tauto.
  - right. rewrite progress_sick in Hp by assumption.
    inversion Hp; subst. split; [assumption |].
    destruct (Rleb _ _); tauto.
Qed.

(** While the asymptomatic timer is positive, each call takes 1 off it and
    leaves the agent alive and infected, with its infection timer and its
    travel energy as they were. *)
Lemma incubation_run n a a' :
  evolves_in n a a' ->
  alive a = true -> infected a = true -> INR n < asymptomaticTimer a + 1 ->
  alive a' = true /\ infected a' = true
  /\ asymptomaticTimer a' = asymptomaticTimer a - INR n
  /\ infectionTimer a' = infectionTimer a
  /\ travelerBias a' = travelerBias a
  /\ protected a' = protected a.
Proof.
  induction 1 as [a | n a b c fuel landscape population s s' Hab IH Hstep];
    intros Ha Hi Hn.
  - simpl. split; [assumption |]. split; [assumption |].
    split; [lra |]. repeat split.
  - rewrite S_INR in Hn.
    destruct IH as (Hb & Hbi & Hbt & Hbn & Hbb & Hbp); [assumption .. | lra |].
    apply update_incubating in Hstep; [| assumption | assumption | lra].
    destruct Hstep as (l & _ & ->).
    cbn [alive infected asymptomaticTimer infectionTimer travelerBias
         protected set_asymptomaticTimer set_location].
    rewrite S_INR.
    repeat split; try assumption. lra.
Qed.

(** A symptomatic agent that is still alive after fewer calls than its
    infection timer counts is still infected, and its infection timer is
    that much lower. *)
Lemma illness_run n a a' :
  evolves_in n a a' ->
  infected a = true -> asymptomaticTimer a <= 0 ->
  (Z.of_nat n < infectionTimer a)%Z -> alive a' = true ->
  infected a' = true
  /\ asymptomaticTimer a' = asymptomaticTimer a
  /\ infectionTimer a' = (infectionTimer a - Z.of_nat n)%Z
  /\ travelerBiasO a' = travelerBiasO a
  /\ infectionTime a' = infectionTime a
  /\ asymptomaticTime a' = asymptomaticTime a.
Proof.
  induction 1 as [a | n a b c fuel landscape population s s' Hab IH Hstep];
    intros Hi Ht Hn Halive.
  - split; [assumption |]. split; [reflexivity |].
    split; [simpl; lia |]. repeat split.
  - pose proof (update_alive_back _ _ _ _ _ _ _ Hstep Halive) as Hb.
    destruct IH as (Hbi & Hbt & Hbn & Hbo & Hbtime & Hbat);
      [assumption | assumption | lia | assumption |].
    apply update_symptomatic in Hstep; [| assumption | assumption | lra].
    destruct Hstep as (l & _ & [[H1 _] | [_ [-> | ->]]]).
    + lia.
    + cbn [infected asymptomaticTimer infectionTimer travelerBiasO
           infectionTime asymptomaticTime sickDay set_infectionTimer
           set_travelerBias set_location].
      repeat split; try assumption. lia.
    + discriminate Halive.
Qed.

(** A symptomatic agent that is alive after exactly as many calls as its
    infection timer counts has just recovered. *)
Lemma recovery_run n a a' :
  evolves_in n a a' ->
  infected a = true -> asymptomaticTimer a <= 0 ->
  (1 <= infectionTimer a)%Z ->
  Z.of_nat n = infectionTimer a -> alive a' = true ->
  infected a' = false /\ protected a' = true
  /\ infectionTimer a' = infectionTime a
  /\ asymptomaticTimer a' = asymptomaticTime a
  /\ travelerBias a' = travelerBiasO a.
Proof.
  intros Hrun Hi Ht H1 Hn Halive.
  destruct Hrun as [a | n a b c fuel landscape population s s' Hab Hstep].
  - simpl in Hn. lia.
  - pose proof (update_alive_back _ _ _ _ _ _ _ Hstep Halive) as Hb.
    destruct (illness_run _ _ _ Hab Hi Ht ltac:(lia) Hb)
      as (Hbi & Hbt & Hbn & Hbo & Hbtime & Hbat).
    apply update_symptomatic in Hstep; [| assumption | assumption | lra].
    destruct Hstep as (l & _ & [[_ ->] | [Hne _]]).
    + simpl. repeat split; assumption.
    + lia.
Qed.

End Illness.

(* ================================================================== *)
(** * The threshold of the death check *)

Lemma max_rate_range a : 0.002 <= max_rate a <= 0.148.
Proof.
  unfold max_rate.
  pose proof (ageFactor_range (age a)) as [Ha0 Ha1].
  pose proof (deathFactor_range (preexistingCondition a)) as [Hd0 Hd1].
  split.
  - pose proof (Rmax_l (ageFactor (age a)) (deathFactor (preexistingCondition a))).
    lra.
  - apply Rmax_lub; lra.
Qed.

Lemma survivalThreshold_range a :
  (1 <= infectionTime a)%Z ->
  1 - max_rate a <= survivalThreshold a < 1.
Proof.
  intros HT. rewrite survivalThreshold_Rpower. fold (max_rate a).
  pose proof (max_rate_range a) as [Hm0 Hm1].
  set (b := 1 - max_rate a). assert (Hb : 0 < b < 1) by (subst b; lra).
  assert (Hln : ln b < 0) by (rewrite <- ln_1; apply ln_increasing; lra).
  assert (HT' : 1 <= IZR (infectionTime a)) by (apply IZR_le in HT; exact HT).
  assert (He : 0 < 1 / IZR (infectionTime a) <= 1).
  { split.
    - apply Rdiv_lt_0_compat; lra.
    - apply Rmult_le_reg_r with (IZR (infectionTime a)); [lra |].
      unfold Rdiv. rewrite Rmult_assoc, Rinv_l by lra. lra. }
  set (e := 1 / IZR (infectionTime a)) in *.
  assert (H1 : 0 <= (1 - e) * (- ln b)) by (apply Rmult_le_pos; lra).
  assert (H2 : 0 < e * (- ln b)) by (apply Rmult_lt_0_compat; lra).
  unfold Rpower. split.
  - rewrite <- (exp_ln b) at 1 by lra.
    destruct (Req_dec_T (e * ln b) (ln b)) as [-> | Hne]; [lra |].
    left. apply exp_increasing. lra.
  - rewrite <- exp_0. apply exp_increasing. lra.
Qed.

(** The daily threshold compounds to the rate of the table over as many
    days as the infection lasts. *)
Lemma survivalThreshold_pow a :
  (1 <= infectionTime a)%Z ->
  survivalThreshold a ^ Z.to_nat (infectionTime a) = 1 - max_rate a.
Proof.
  intros HT. pose proof (survivalThreshold_range a HT) as [Hlo Hhi].
  pose proof (max_rate_range a) as [Hm0 Hm1].
  rewrite <- Rpower_pow by lra.
  rewrite survivalThreshold_Rpower. fold (max_rate a).
  rewrite Rpower_mult.
  rewrite INR_IZR_INZ, Z2Nat.id by lia.
  replace (1 / IZR (infectionTime a) * IZR (infectionTime a)) with 1.
  - apply Rpower_1. lra.
  - apply IZR_le in HT. field. lra.
Qed.

(* ================================================================== *)
(** * The age of the world distribution *)

Section WorldAge.
Context {G : Generator} {P : SciPy}.

Lemma age_distribution_world fuel mean s :
  mean <= 0 ->
  age_distribution fuel mean s
  = Done (5 * INR (fst (choice worldPopulationWeights s))
          + 4 * fst (rand (snd (choice worldPopulationWeights s))),
          snd (rand (snd (choice worldPopulationWeights s)))).
Proof.
  intros Hm. unfold age_distribution. rewrite Rleb_true by assumption.
  unfold bind, draw, ret.
  destruct (choice worldPopulationWeights s) as [n s1]. cbn [fst snd].
  destruct (rand s1) as [u s2]. reflexivity.
Qed.

Lemma init_age fuel ab cb sb tb g bias s a s' :
  Agent.init fuel ab cb sb tb g bias s = Done (a, s') ->
  exists s1, age_distribution fuel ab s = Done (age a, s1).
Proof.
  unfold Agent.init. intros H.
  apply bind_Done in H. destruct H as [x [s1 [Hage H]]].
  apply bind_Done in H. destruct H as [l [s2 [_ H]]].
  apply bind_Done in H. destruct H as [u [s3 [_ H]]].
  apply bind_Done in H. destruct H as [long [s4 [_ H]]].
  apply bind_Done in H. destruct H as [t [s5 [_ H]]].
  apply ret_Done in H. destruct H as [-> _]. simpl.
  exists s1. assumption.
Qed.

End WorldAge.

(** An age in the first four years of a five-year group below 80 is in a
    bracket of the table. *)
Lemma bracketed_age_factor (k : nat) x :
  5 * INR k <= x < 5 * INR k + 4 -> x < 80 -> ageFactor x < 0.148.
Proof.
  intros Hx H80.
  destruct ageFactor_table as (T0 & T1 & T2 & T3 & T4 & _).
  assert (Hk : (k <= 15)%nat).
  { destruct (le_lt_dec k 15) as [Hle | Hgt]; [assumption |].
    assert (H16 : (16 <= k)%nat) by lia. apply le_INR in H16.
    replace (INR 16) with 16 in H16 by (simpl; lra). lra. }
  do 16 (destruct k as [| k];
         [ simpl in Hx;
           first [ rewrite T0 by lra | rewrite T1 by lra | rewrite T2 by lra
                 | rewrite T3 by lra | rewrite T4 by lra ]; lra |]).
  lia.
Qed.

(* ================================================================== *)
(** * More replayed runs *)

(** The movement of an agent that is out of social distancing, on a tape
    whose first candidate is inside the square. *)
Lemma replay_moves fuel a population u us z0 z1 zs cs gs :
  0 <= u < 1 -> socialDistanceBias a < u ->
  let c := round_point (locationGranularity a)
             (fst (location a) + stepScale a * z0,
              snd (location a) + stepScale a * z1) in
  inside c = true ->
  @Agent.move replay flat fuel a population
    (mkTape (u :: us) (z0 :: z1 :: zs) cs gs)
  = Done (c, mkTape us zs cs gs).
Proof.
  intros Hu Hs c Hc.
  pose proof (@move_first_candidate replay flat fuel a population
                (mkTape (u :: us) (z0 :: z1 :: zs) cs gs)) as H.
  cbv zeta in H.
  cbn [rand standard_normal replay replay_rand replay_normal
       uniforms normals choices gammas fst snd] in H.
  rewrite (Rleb_true 0 u), (Rltb_true u 1) in H by lra. simpl andb in H.
  apply H; assumption.
Qed.

(** One tick of [sick]: the death check draws 0.25 and the agent lives. *)
Lemma sick_tick_survives :
  @Agent.update replay flat 0 sick small_world [sick] sick_tick
  = Done (sickDay (set_location sick (0.51, 0.49)), after_draw).
Proof.
  rewrite (@update_alive replay flat _ _ _ _ _ (0.51, 0.49) after_move);
    [| reflexivity | apply sick_moves; reflexivity].
  rewrite (@progress_sick replay); [| reflexivity | simpl; lra | simpl; lia].
  rewrite after_move_rand. cbn [fst snd].
  pose proof (survivalThreshold_range (set_location sick (0.51, 0.49))
                ltac:(simpl; lia)) as [Hlo _].
  pose proof (max_rate_range (set_location sick (0.51, 0.49))) as [_ Hm].
  rewrite Rleb_false by lra. reflexivity.
Qed.

(** One tick of [first_sick_day] on [fatal_tick]: the death check draws
    0.99999 and the agent dies. *)
Lemma fatal_tick_kills :
  @Agent.update replay flat 0 first_sick_day small_world [first_sick_day]
    fatal_tick
  = Done (set_alive (sickDay (set_location first_sick_day (0.52, 0.48))) false,
          after_draw).
Proof.
  assert (Hr : round_point 2 (0.5 + 2 * / 10 ^ 2 * 1, 0.5 + 2 * / 10 ^ 2 * -1)
               = (0.52, 0.48)).
  { unfold round_point. cbn [fst snd]. f_equal.
    - rewrite (np_round_exact 2 _ 52) by (simpl; lra). simpl. lra.
    - rewrite (np_round_exact 2 _ 48) by (simpl; lra). simpl. lra. }
  rewrite (@update_alive replay flat _ _ _ _ _ (0.52, 0.48)
             (mkTape [0.99999] [] [] []));
    [| reflexivity |].
  2:{ rewrite <- Hr.
      apply (replay_moves 0 first_sick_day [first_sick_day] 0.5 [0.99999]
               1 (-1) [] [] []); [lra | simpl; lra |].
      unfold stepScale. cbn [location travelerBias locationGranularity
        first_sick_day incubating resident set_asymptomaticTimer set_infected
        fst snd].
      rewrite Hr. apply inside_iff. simpl. lra. }
  rewrite (@progress_sick replay); [| reflexivity | simpl; lra | simpl; lia].
  cbn [rand replay replay_rand uniforms fst snd].
  rewrite (Rleb_true 0 0.99999), (Rltb_true 0.99999 1) by lra. cbn [andb].
  set (a := set_location first_sick_day (0.52, 0.48)).
  assert (Hthr : survivalThreshold a <= 0.99999).
  { destruct (Rle_dec (survivalThreshold a) 0.99999) as [H | H]; [exact H |].
    exfalso.
    pose proof (survivalThreshold_pow a ltac:(simpl; lia)) as Hpow.
    pose proof (max_rate_range a) as [Hm _].
    assert (Hmono : 0.99999 ^ 14 <= survivalThreshold a ^ 14)
      by (apply pow_incr; lra).
    change (Z.to_nat (infectionTime a)) with 14%nat in Hpow.
    assert (Hnum : 0.999 < 0.99999 ^ 14) by (simpl; lra).
    lra. }
  rewrite Rleb_true by assumption. reflexivity.
Qed.



(* ================================================================== *)
(** * [closestFriends] *)

Lemma dist2_nonneg l here : 0 <= dist2 l here.
Proof.
  unfold dist2.
  pose proof (Rle_0_sqr (fst l - fst here)) as Hx.
  pose proof (Rle_0_sqr (snd l - snd here)) as Hy.
  unfold Rsqr in Hx, Hy. lra.
Qed.

Lemma dist2_zero l here : dist2 l here = 0 -> l = here.
Proof.
  unfold dist2. destruct l as [x y], here as [hx hy]. cbn [fst snd]. intros H.
  pose proof (Rle_0_sqr (x - hx)) as Hx.
  pose proof (Rle_0_sqr (y - hy)) as Hy.
  unfold Rsqr in Hx, Hy.
  assert (Hx0 : (x - hx) * (x - hx) = 0) by lra.
  assert (Hy0 : (y - hy) * (y - hy) = 0) by lra.
  apply Rmult_integral in Hx0. apply Rmult_integral in Hy0.
  f_equal; lra.
Qed.

Lemma nth_keys (locations : list point) here k :
  (k < length locations)%nat ->
  nth k (map (fun l => dist2 l here) locations) 0
  = dist2 (nth k locations (0, 0)) here.
Proof.
  intros Hk.
  rewrite (nth_indep _ 0 (dist2 (0, 0) here)) by (rewrite length_map; exact Hk).
  apply (map_nth (fun l => dist2 l here)).
Qed.

Lemma argsort_in_range keys k : In k (argsort keys) -> (k < length keys)%nat.
Proof.
  intros H. apply (Permutation_in _ (argsort_permutation keys)) in H.
  apply in_seq in H. lia.
Qed.

Lemma in_firstn_skipn {A} (x : A) m n l : In x (firstn m (skipn n l)) -> In x l.
Proof.
  intros H.
  assert (H' : In x (skipn n l)).
  { rewrite <- (firstn_skipn m (skipn n l)). apply in_or_app. left. exact H. }
  rewrite <- (firstn_skipn n l). apply in_or_app. right. exact H'.
Qed.

(* ================================================================== *)
(** * simulate.py: facts *)

Lemma length_replace_nth {A} k (x : A) l : length (replace_nth k x l) = length l.
Proof.
  revert k. induction l as [| y l IH]; intros [| k]; simpl; auto.
Qed.

Lemma count_true_from bs : forall n,
  fold_left (fun n (b : bool) => (n + if b then 1 else 0)%Z) bs n
  = (n + count_true bs)%Z.
Proof.
  unfold count_true.
  induction bs as [| b bs IH]; intros n; simpl; [lia |].
  rewrite IH. rewrite (IH (if b then 1 else 0)%Z). lia.
Qed.

Lemma count_true_cons b bs :
  count_true (b :: bs) = ((if b then 1 else 0) + count_true bs)%Z.
Proof. unfold count_true at 1. simpl. apply count_true_from. Qed.

Lemma count_true_nonneg bs : (0 <= count_true bs)%Z.
Proof.
  induction bs as [| b bs IH]; [unfold count_true; simpl; lia |].
  rewrite count_true_cons. destruct b; lia.
Qed.


Section SimulateFacts.
Context {G : Generator} {P : SciPy}.

Lemma evolves_trans a b c : evolves a b -> evolves b c -> evolves a c.
Proof.
  intros Hab Hbc. induction Hbc; [assumption |].
  eapply evolves_step; [apply IHHbc; assumption | eassumption].
Qed.

Lemma evolves_dead a b : evolves a b -> alive a = false -> b = a.
Proof.
  induction 1 as [a | a b c fuel landscape population s s' _ IH Hstep];
    intros Ha; [reflexivity |].
  specialize (IH Ha). subst b.
  rewrite update_dead in Hstep by assumption. inversion Hstep. reflexivity.
Qed.

Lemma survives_refl p : survives p p.
Proof. split; [apply evolves_refl | reflexivity]. Qed.

Lemma survives_trans p q r : survives p q -> survives q r -> survives p r.
Proof.
  intros [Hpq Hdq] [Hqr Hdr]. split.
  - eapply evolves_trans; eassumption.
  - intros Hp. specialize (Hdq Hp). subst q. apply Hdr. assumption.
Qed.

Lemma Forall2_survives_refl l : Forall2 survives l l.
Proof. induction l; constructor; [apply survives_refl | assumption]. Qed.

Lemma Forall2_survives_trans l1 : forall l2 l3,
  Forall2 survives l1 l2 -> Forall2 survives l2 l3 -> Forall2 survives l1 l3.
Proof.
  induction l1 as [| p l1 IH]; intros l2 l3 H12 H23.
  - inversion H12; subst. inversion H23; subst. constructor.
  - inversion H12; subst. inversion H23; subst.
    constructor; [eapply survives_trans; eassumption | eapply IH; eassumption].
Qed.

Lemma replace_nth_survives l : forall k p p',
  nth_error l k = Some p -> survives p p' ->
  Forall2 survives l (replace_nth k p' l).
Proof.
  induction l as [| q l IH]; intros [| k] p p' Hk Hs; simpl in *;
    try discriminate.
  - inversion Hk; subst. constructor; [assumption | apply Forall2_survives_refl].
  - constructor; [apply survives_refl | eapply IH; eassumption].
Qed.

Lemma update_at_survives fuel landscape population a s population' s' :
  Simulate.update_at fuel landscape population a s = Done (population', s') ->
  (a < length population)%nat /\ Forall2 survives population population'.
Proof.
  unfold Simulate.update_at. intros H.
  destruct (nth_error population a) as [p |] eqn:Hp; [| discriminate].
  split; [apply nth_error_Some; congruence |].
  apply bind_Done in H. destruct H as [p' [s1 [Hup H]]].
  apply ret_Done in H. destruct H as [-> _].
  eapply replace_nth_survives; [eassumption |].
  split.
  - eapply evolves_step; [apply evolves_refl | eassumption].
  - intros Ha. rewrite update_dead in Hup by assumption.
    inversion Hup. reflexivity.
Qed.

Lemma sweep_survives fuel landscape indices : forall population s population' s',
  Simulate.sweep fuel landscape indices population s = Done (population', s') ->
  Forall (fun a => (a < length population)%nat) indices
  /\ Forall2 survives population population'.
Proof.
  induction indices as [| a indices IH]; intros population s population' s' H;
    simpl in H.
  - apply ret_Done in H. destruct H as [-> _].
    split; [constructor | apply Forall2_survives_refl].
  - apply bind_Done in H. destruct H as [pop1 [s1 [Hat H]]].
    apply update_at_survives in Hat. destruct Hat as [Ha H01].
    apply IH in H. destruct H as [Hind H12].
    split.
    + constructor; [assumption |].
      rewrite (Forall2_length H01). assumption.
    + eapply Forall2_survives_trans; eassumption.
Qed.

Lemma survives_numDead population population' :
  Forall2 survives population population' ->
  (Simulate.numDead population <= Simulate.numDead population')%Z.
Proof.
  unfold Simulate.numDead.
  induction 1 as [| p p' l l' [_ Hd] _ IH]; simpl map; [lia |].
  rewrite !count_true_cons.
  destruct (alive p) eqn:Ha; cbn [negb].
  - destruct (alive p'); cbn [negb]; lia.
  - rewrite (Hd eq_refl), Ha. cbn [negb]. lia.
Qed.

Lemma update_at_no_index fuel landscape population a s :
  (a < length population)%nat -> (0 <= scale landscape)%Z ->
  Simulate.update_at fuel landscape population a s <> IndexError.
Proof.
  intros Ha Hsc. unfold Simulate.update_at.
  destruct (nth_error population a) as [p |] eqn:Hp.
  - intros H. apply bind_IndexError in H.
    destruct H as [H | [p' [s1 [_ H]]]]; [| discriminate].
    revert H. apply update_no_index. assumption.
  - apply nth_error_None in Hp. lia.
Qed.

Lemma sweep_no_index fuel landscape indices : forall population s,
  Forall (fun a => (a < length population)%nat) indices ->
  (0 <= scale landscape)%Z ->
  Simulate.sweep fuel landscape indices population s <> IndexError.
Proof.
  induction indices as [| a indices IH]; intros population s Hind Hsc; simpl.
  - discriminate.
  - inversion Hind as [| ? ? Ha Hrest]; subst.
    intros H. apply bind_IndexError in H.
    destruct H as [H | [pop1 [s1 [Hat H]]]].
    + revert H. apply update_at_no_index; assumption.
    + revert H. apply IH; [| assumption].
      apply update_at_survives in Hat. destruct Hat as [_ H01].
      rewrite <- (Forall2_length H01). assumption.
Qed.

End SimulateFacts.

Section SimulateLoop.
Context {G : Generator} {P : SciPy}.

Lemma init_config fuel ab cb sb tb g bias s a s' :
  Agent.init fuel ab cb sb tb g bias s = Done (a, s') ->
  ageBias a = ab /\ cleanlinessBias a = cb /\ socialDistanceBias a = sb
  /\ locationGranularity a = g /\ initialLocationBias a = bias.
Proof.
  unfold Agent.init. intros H.
  apply bind_Done in H. destruct H as [x [s1 [_ H]]].
  apply bind_Done in H. destruct H as [l [s2 [_ H]]].
  apply bind_Done in H. destruct H as [u [s3 [_ H]]].
  apply bind_Done in H. destruct H as [long [s4 [_ H]]].
  apply bind_Done in H. destruct H as [t [s5 [_ H]]].
  apply ret_Done in H. destruct H as [-> _]. simpl. repeat split.
Qed.

Lemma make_population_returns {L : GeneratorLaws G} fuel n : forall s,
  exists population s',
    Simulate.make_population fuel n s = Done (population, s')
    /\ length population = n
    /\ Forall script_agent population.
Proof.
  induction n as [| n IH]; intros s; simpl.
  - exists [], s. split; [reflexivity |]. split; [reflexivity | constructor].
  - unfold bind at 1. unfold draw at 1.
    pose proof (rand_range s) as Hu1. destruct (rand s) as [u1 s1].
    unfold bind at 1. unfold draw at 1.
    pose proof (rand_range s1) as Hu2. destruct (rand s1) as [u2 s2].
    unfold bind at 1. unfold draw at 1.
    destruct (rand s2) as [u3 s3]. cbn [fst] in *.
    destruct (init_world_returns fuel (-1) (0 * 0.5 * u1) (0 + 0 * u3)
                (1.0 + 2.5 * u2) 2%nat None s3 ltac:(lra))
      as (a & s4 & Hinit).
    unfold bind at 1. rewrite Hinit.
    destruct (IH s4) as (rest & s5 & Hrest & Hlen & Hall).
    unfold bind at 1. rewrite Hrest.
    exists (a :: rest), s5. split; [reflexivity |].
    split; [simpl; congruence |].
    constructor; [| assumption].
    pose proof (init_config _ _ _ _ _ _ _ _ _ _ Hinit) as (Hab & Hcb & Hsb & Hg & _).
    apply init_initial in Hinit.
    destruct Hinit as (Htb & Htbo & Hi & _ & Ha & Hp & _).
    unfold script_agent.
    rewrite Hab, Hcb, Hsb, Htb, Htbo, Hg, Ha, Hi, Hp.
    repeat split; lra.
Qed.



End SimulateLoop.

Lemma Forall_replace_nth {A} (Q : A -> Prop) l : forall k x,
  Forall Q l -> Q x -> Forall Q (replace_nth k x l).
Proof.
  induction l as [| y l IH]; intros [| k] x Hl Hx; simpl; try assumption;
    inversion Hl; subst; constructor; auto.
Qed.

Lemma In_replace_nth {A} l : forall k (x : A),
  (k < length l)%nat -> In x (replace_nth k x l).
Proof.
  induction l as [| y l IH]; intros [| k] x Hk; simpl in *; try lia.
  - left; reflexivity.
  - right. apply IH. lia.
Qed.




Lemma nth_error_replace_nth {A} l : forall k (x : A),
  (k < length l)%nat -> nth_error (replace_nth k x l) k = Some x.
Proof.
  induction l as [| y l IH]; intros [| k] x Hk; simpl in *; try lia.
  - reflexivity.
  - apply IH. lia.
Qed.

(** The cell under a living infected agent, when nobody cleans. *)
Lemma saturated_cell e population p :
  Forall (fun q => cleanlinessBias q = 0) population ->
  In p population -> alive p = true -> infected p = true ->
  (0 <= AOE e)%Z ->
  let i := fst (cell_of (scale e) p) in
  let j := snd (cell_of (scale e) p) in
  in_grid (scale e) i j -> 0 <= viralMap e i j ->
  viralMap (Environment.update e population) i j = attenuation e.
Proof.
  intros Hclean Hin Ha Hi Haoe i j Hg Hv.
  rewrite update_cellwise. fold i j.
  apply in_split in Hin. destruct Hin as (l1 & l2 & ->).
  rewrite fold_left_app. simpl.
  apply Forall_app in Hclean. destruct Hclean as [Hl1 Hl2].
  inversion Hl2 as [| ? ? Hp Hl2']; subst.
  set (v1 := fold_left _ l1 _).
  assert (Hv1 : 0 <= v1) by (apply fold_cell_effect_nonneg; assumption).
  assert (Hone : cell_effect (attenuation e) (scale e) (AOE e) p i j v1 = 1).
  { unfold cell_effect.
    assert (Hr : reaches (scale e) (AOE e) p i j = true).
    { apply reaches_iff. split.
      - unfold Environment.contributes. rewrite Ha, Hi. reflexivity.
      - split; [assumption |]. unfold chebyshev. fold i j. lia. }
    rewrite Hr. rewrite deposit_without_cleaning by assumption.
    rewrite Hi. simpl b2r. fold i j.
    replace (IZR (taxicab i j i j) / 2) with 0.
    2:{ unfold taxicab. rewrite !Z.sub_diag. simpl. lra. }
    rewrite fpow_0_r. apply Rmin_right. lra. }
  rewrite Hone. rewrite fold_cell_effect_keeps_one by assumption. lra.
Qed.

(** One tick of [resident] on a saturated field: it moves and is infected. *)
Lemma resident_caught :
  @Agent.update replay flat 0 resident saturated_world [resident] one_tick
  = Done (set_infected (set_location resident (0.52, 0.48)) true, after_draw).
Proof.
  rewrite (@update_alive replay flat _ _ _ _ _ (0.52, 0.48) after_move);
    [| reflexivity | apply resident_moves; reflexivity].
  rewrite (@progress_exposed replay) by reflexivity.
  assert (Hcell : cell_of (scale saturated_world)
                    (set_location resident (0.52, 0.48)) = (52, 48)%Z).
  { unfold cell_of. cbn [location set_location fst snd scale saturated_world].
    replace (0.52 * IZR 100) with (IZR 52) by lra.
    replace (0.48 * IZR 100) with (IZR 48) by lra.
    rewrite !py_int_IZR. reflexivity. }
  rewrite Hcell. cbn [fst snd].
  rewrite grid_get_in_grid by (unfold in_grid; simpl; lia).
  rewrite after_move_rand. cbn [fst snd viralMap saturated_world].
  rewrite Rltb_true by lra. reflexivity.
Qed.

(* ================================================================== *)
(** * The properties of the specification *)

(** ** The environment *)

(** C1, as the code has it.  Apart from the attenuation of the whole field,
    [environment.update] changes only the cells of the square block around a
    contributing agent: a cell whose larger coordinate distance to the cell of
    every contributing agent exceeds [AOE] ends at its old load times the
    attenuation.  The taxicab distance only sets the size of the deposit.  In
    the scenario (attenuation 0.5, [AOE = 1], one living infected agent that
    does not clean, on the cell (0,0) of a fresh field) the cell (0,0) ends at
    0.5, the cells (1,0) and (0,1) at 0.5^0.5 * 0.5, and the cell (1,1), a
    corner of the block at taxicab distance 2, at 0.5^1 * 0.5 = 0.25. *)
Theorem update_changes_only_the_block :
  (forall e population x y,
      (forall p, In p population -> Environment.contributes p = true ->
         (AOE e < chebyshev (fst (cell_of (scale e) p))
                            (snd (cell_of (scale e) p)) x y)%Z) ->
      viralMap (Environment.update e population) x y
      = viralMap e x y * attenuation e)
  /\ (forall g p,
        alive p = true -> infected p = true -> cleanlinessBias p = 0 ->
        cell_of (10 ^ Z.of_nat g) p = (0, 0)%Z ->
        let e' := Environment.update (Environment.init g 0.5 1) [p] in
        viralMap e' 0%Z 0%Z = 0.5
        /\ viralMap e' 1%Z 0%Z = Rpower 0.5 0.5 * 0.5
        /\ viralMap e' 0%Z 1%Z = Rpower 0.5 0.5 * 0.5
        /\ viralMap e' 1%Z 1%Z = 0.25).
Proof.
  split.
  - intros e population x y Hfar. simpl.
    rewrite fold_spread_frame by assumption. reflexivity.
  - intros g p Ha Hi Hc Hcell. apply scenario_cells; assumption.
Qed.

Lemma update_changes_only_the_block_witness :
  viralMap (Environment.update small_world [corner_patient]) 0%Z 2%Z
  = viralMap small_world 0%Z 2%Z * attenuation small_world
  /\ (let e' := Environment.update (Environment.init 2 0.5 1) [corner_patient] in
      viralMap e' 0%Z 0%Z = 0.5
      /\ viralMap e' 1%Z 0%Z = Rpower 0.5 0.5 * 0.5
      /\ viralMap e' 0%Z 1%Z = Rpower 0.5 0.5 * 0.5
      /\ viralMap e' 1%Z 1%Z = 0.25).
Proof.
  split.
  - apply (proj1 update_changes_only_the_block).
    intros p [<- | []] _. rewrite corner_patient_cell.
    unfold chebyshev. simpl. lia.
  - apply (proj2 update_changes_only_the_block 2%nat corner_patient);
      try reflexivity.
    apply corner_patient_cell.
Defined.

(** C1 fails as stated: in the scenario the cell (1,1) is at taxicab distance
    2 from the only contributing agent, beyond [AOE = 1], and its load goes
    from 0 to 0.25. *)
Lemma corner_of_the_block_is_loaded :
  Environment.contributes corner_patient = true
  /\ cell_of (scale small_world) corner_patient = (0, 0)%Z
  /\ (AOE small_world < taxicab 0 0 1 1)%Z
  /\ viralMap small_world 1%Z 1%Z = 0
  /\ viralMap (Environment.update small_world [corner_patient]) 1%Z 1%Z = 0.25
  /\ viralMap (Environment.update small_world [corner_patient]) 1%Z 1%Z <> 0.
Proof.
  assert (Hcon : Environment.contributes corner_patient = true).
  { unfold Environment.contributes. reflexivity. }
  pose proof (scenario_cells 2 corner_patient eq_refl eq_refl eq_refl
                (corner_patient_cell _)) as [_ [_ [_ H11]]].
  change (Environment.init 2 0.5 1) with small_world in H11.
  split; [exact Hcon |].
  split; [apply corner_patient_cell |].
  split; [unfold taxicab; simpl; lia |].
  split; [reflexivity |].
  split; [exact H11 |].
  rewrite H11. lra.
Qed.



(** The bound on the cleaning effectiveness is needed: the second clamp is a
    lower one only, so an agent with the effectiveness -3 (outside the
    documented [0,1]) leaves its own cell at 3 * 0.5. *)
Lemma negative_cleaning_escapes_the_clamp :
  viralMap (Environment.update small_world [negative_cleaner]) 0%Z 0%Z = 1.5.
Proof.
  assert (Hcell : cell_of (scale small_world) negative_cleaner = (0, 0)%Z)
    by (apply origin_cell; reflexivity).
  cbn [Environment.update viralMap fold_left].
  rewrite spread_inside.
  - rewrite Hcell. unfold deposit, taxicab. simpl.
    replace (0 / 2) with 0 by lra. rewrite fpow_0_r.
    rewrite Rmin_left by lra. rewrite Rmax_left by lra. lra.
  - unfold Environment.contributes. simpl.
    rewrite Reqb_false by lra. reflexivity.
  - unfold in_grid. simpl. lia.
  - rewrite Hcell. unfold chebyshev. simpl. lia.
Qed.

(** ** The agent *)

(** C6.  For a dead agent [agent.update] is a no-op: it returns the agent as
    it was (position, flags, timers, travel energy and all), whatever the
    environment and the population, and makes no draw. *)
Theorem dead_agent_update_is_noop {G : Generator} {P : SciPy}
        fuel a landscape population s :
  alive a = false ->
  Agent.update fuel a landscape population s = Done (a, s).
Proof. apply update_dead. Qed.

Lemma dead_agent_update_is_noop_witness :
  alive deceased = false
  /\ @Agent.update replay flat 0 deceased saturated_world [deceased; resident]
       one_tick = Done (deceased, one_tick).
Proof.
  split; [reflexivity |].
  apply (@dead_agent_update_is_noop replay flat). reflexivity.
Defined.

(** C5.  An agent that is protected and not infected is still protected and
    not infected after any number of calls of [agent.update], whatever the
    environments (a cell at load 1 included), the populations and the draws. *)
Theorem protected_agent_is_never_infected {G : Generator} {P : SciPy} a a' :
  evolves a a' ->
  protected a = true -> infected a = false ->
  infected a' = false /\ protected a' = true.
Proof. intros He Hp Hi. eapply evolves_immune; eassumption. Qed.

Lemma protected_agent_is_never_infected_witness :
  grid_get saturated_world 52 48 = Some 1
  /\ @Agent.update replay flat 0 immune saturated_world [immune] one_tick
     = Done (set_location immune (0.52, 0.48), after_move)
  /\ infected (set_location immune (0.52, 0.48)) = false
  /\ protected (set_location immune (0.52, 0.48)) = true.
Proof.
  split; [reflexivity |].
  split; [apply immune_tick |].
  apply (@protected_agent_is_never_infected replay flat immune).
  - eapply evolves_step; [apply evolves_refl | apply immune_tick].
  - reflexivity.
  - reflexivity.
Defined.

(** C7.  A living infected agent in the symptomatic phase whose infection
    timer is 1 recovers in this call (provided its movement returns): it comes
    out not infected, protected, alive, with the infection timer back at
    [infectionTime], the asymptomatic timer back at [asymptomaticTime] and the
    travel energy back at [travelerBiasO]; the generator is left as the
    movement left it, so no death check is drawn.  These three values are the
    ones of the construction: no call of [update] changes them, and the
    constructor sets the travel energy and the two timers to them. *)
Theorem recovery_on_the_last_day {G : Generator} {P : SciPy}
        fuel a landscape population s l s1 :
  alive a = true -> infected a = true ->
  asymptomaticTimer a <= 0 -> infectionTimer a = 1%Z ->
  Agent.move fuel a population s = Done (l, s1) ->
  (exists a',
      Agent.update fuel a landscape population s = Done (a', s1)
      /\ infected a' = false /\ protected a' = true /\ alive a' = true
      /\ infectionTimer a' = infectionTime a
      /\ asymptomaticTimer a' = asymptomaticTime a
      /\ travelerBias a' = travelerBiasO a)
  /\ (forall a0, evolves a0 a ->
        infectionTime a = infectionTime a0
        /\ asymptomaticTime a = asymptomaticTime a0
        /\ travelerBiasO a = travelerBiasO a0)
  /\ (forall a0, constructed a0 ->
        infectionTimer a0 = infectionTime a0
        /\ asymptomaticTimer a0 = asymptomaticTime a0
        /\ travelerBias a0 = travelerBiasO a0).
Proof.
  intros Ha Hi Ht Hn Hm. split; [| split].
  - exists (heal (sickDay (set_location a l))).
    split.
    + rewrite (update_alive _ _ _ _ _ _ _ Ha Hm).
      apply progress_healed; assumption.
    + simpl. repeat split; assumption.
  - intros a0 He. apply evolves_constants in He.
    unfold same_constants in He. tauto.
  - intros a0 (fuel0 & ab & cb & sb & tb & g & bias & s0 & s0' & Hinit).
    apply init_initial in Hinit.
    destruct Hinit as (Htb & Htbo & _ & _ & _ & _ & Hit & Hat & _).
    repeat split; congruence.
Qed.

Lemma recovery_on_the_last_day_witness :
  exists a',
    @Agent.update replay flat 0 last_day small_world [last_day] sick_tick
    = Done (a', after_move)
    /\ infected a' = false /\ protected a' = true /\ alive a' = true
    /\ infectionTimer a' = 14%Z
    /\ asymptomaticTimer a' = 0.5
    /\ travelerBias a' = 2.
Proof.
  apply (proj1 (@recovery_on_the_last_day replay flat 0 last_day small_world
                  [last_day] sick_tick (0.51, 0.49) after_move
                  eq_refl eq_refl
                  ltac:(simpl; lra) eq_refl
                  (sick_moves 0 last_day [last_day]
                     eq_refl eq_refl eq_refl eq_refl))).
Defined.

(** C2.  For a living agent in the symptomatic phase whose infection timer
    does not reach 0 in this call (and whose movement returns), [agent.update]
    draws one uniform number [u] and the agent comes out dead exactly when
    [u >= (1 - max_rate)^(1/infectionTime)], so with probability
    [1 - (1 - max_rate)^(1/infectionTime)] per day; [max_rate] is the larger
    of 0.105 for a pre-existing condition (0 without) and the age rate, which
    is 0.002 up to 39, 0.004 on [40,49], 0.013 on [50,59], 0.036 on [60,69],
    0.08 on [70,79] and 0.148 from 80. *)
Theorem death_check_threshold {G : Generator} {P : SciPy}
        fuel a landscape population s l s1 :
  alive a = true -> infected a = true ->
  asymptomaticTimer a <= 0 -> infectionTimer a <> 1%Z ->
  Agent.move fuel a population s = Done (l, s1) ->
  let max_rate :=
    Rmax (ageFactor (age a)) (deathFactor (preexistingCondition a)) in
  let u := fst (rand s1) in
  (exists a',
      Agent.update fuel a landscape population s = Done (a', snd (rand s1))
      /\ (alive a' = false
          <-> Rpower (1 - max_rate) (1 / IZR (infectionTime a)) <= u))
  /\ deathFactor true = 0.105 /\ deathFactor false = 0
  /\ (forall x, x <= 39 -> ageFactor x = 0.002)
  /\ (forall x, 40 <= x <= 49 -> ageFactor x = 0.004)
  /\ (forall x, 50 <= x <= 59 -> ageFactor x = 0.013)
  /\ (forall x, 60 <= x <= 69 -> ageFactor x = 0.036)
  /\ (forall x, 70 <= x <= 79 -> ageFactor x = 0.08)
  /\ (forall x, 80 <= x -> ageFactor x = 0.148).
Proof.
  intros Ha Hi Ht Hn Hm max_rate u.
  split; [| split; [reflexivity | split; [reflexivity | apply ageFactor_table]]].
  eexists. split.
  - rewrite (update_alive _ _ _ _ _ _ _ Ha Hm).
    apply progress_sick; assumption.
  - change (survivalThreshold (set_location a l)) with (survivalThreshold a).
    rewrite survivalThreshold_Rpower. fold max_rate. fold u.
    destruct (Rle_dec (Rpower (1 - max_rate) (1 / IZR (infectionTime a))) u)
      as [Hle | Hgt].
    + rewrite Rleb_true by assumption. simpl. tauto.
    + rewrite Rleb_false by lra. simpl. rewrite Ha.
      split; [discriminate | contradiction].
Qed.

Lemma death_check_threshold_witness :
  exists a',
    @Agent.update replay flat 0 sick small_world [sick] sick_tick
    = Done (a', after_draw)
    /\ (alive a' = false
        <-> Rpower (1 - Rmax (ageFactor 30) (deathFactor false)) (1 / 14)
            <= 0.25).
Proof.
  pose proof (proj1 (@death_check_threshold replay flat 0 sick small_world
                  [sick] sick_tick (0.51, 0.49) after_move
                  eq_refl eq_refl
                  ltac:(simpl; lra) ltac:(simpl; lia)
                  (sick_moves 0 sick [sick]
                     eq_refl eq_refl eq_refl eq_refl))) as H.
  rewrite after_move_rand in H. exact H.
Defined.

(** C3, as the code has it.  For a living infected agent in the symptomatic
    phase [agent.update] sets the travel energy to the constant 0.5, whatever
    the value the agent was constructed with; on the day the infection timer
    reaches 0 it then restores the constructed value at once.  Otherwise the
    agent comes out still infected and symptomatic with the travel energy 0.5,
    so the next movement draws at 0.5 grid cells; over any number of further
    calls the agent either stays so or has recovered with the constructed
    travel energy. *)
Theorem sick_travel_energy_is_one_half {G : Generator} {P : SciPy}
        fuel a landscape population s a' s' :
  alive a = true -> infected a = true -> asymptomaticTimer a <= 0 ->
  Agent.update fuel a landscape population s = Done (a', s') ->
  (infectionTimer a = 1%Z /\ infected a' = false /\ protected a' = true
   /\ travelerBias a' = travelerBiasO a)
  \/ (infectionTimer a <> 1%Z
      /\ travelerBias a' = 0.5
      /\ stepScale a' = 0.5 * / 10 ^ locationGranularity a
      /\ infected a' = true /\ asymptomaticTimer a' <= 0
      /\ forall b, evolves a' b ->
           (infected b = true /\ asymptomaticTimer b <= 0
            /\ travelerBias b = 0.5)
           \/ (infected b = false /\ protected b = true
               /\ travelerBias b = travelerBiasO a)).
Proof.
  intros Ha Hi Ht Hup.
  apply update_cases in Hup.
  destruct Hup as [[Hd _] | [_ [l [s1 [_ [_ [Hp _]]]]]]]; [congruence |].
  destruct (Z.eq_dec (infectionTimer a) 1) as [Hn | Hn].
  - left. rewrite progress_healed in Hp by assumption.
    inversion Hp; subst. simpl. tauto.
  - right. rewrite progress_sick in Hp by assumption.
    inversion Hp; subst. clear Hp.
    assert (Hsick : forall c, c = sickDay (set_location a l)
                              \/ c = set_alive (sickDay (set_location a l)) false ->
              travelerBias c = 0.5 /\ infected c = true
              /\ asymptomaticTimer c <= 0
              /\ locationGranularity c = locationGranularity a
              /\ travelerBiasO c = travelerBiasO a).
    { intros c [-> | ->]; simpl; tauto. }
    match goal with
    | |- context [if ?b then ?x else ?y] =>
        destruct (Hsick (if b then x else y)) as (Hb & Hi' & Ht' & Hg' & Ho');
          [destruct b; tauto |]
    end.
    split; [assumption |]. split; [assumption |].
    split; [unfold stepScale; rewrite Hb, Hg'; reflexivity |].
    split; [assumption |]. split; [assumption |].
    intros b Hev. rewrite <- Ho'.
    apply (evolves_sick _ _ Hev); assumption.
Qed.

Lemma sick_travel_energy_is_one_half_witness :
  exists a',
    @Agent.update replay flat 0 first_sick_day small_world [first_sick_day]
      one_tick = Done (a', after_draw)
    /\ travelerBias a' = 0.5
    /\ stepScale a' = 0.5 * / 10 ^ 2
    /\ infected a' = true /\ asymptomaticTimer a' <= 0.
Proof.
  destruct first_sick_day_tick as [a' [Hup _]].
  exists a'. split; [exact Hup |].
  destruct (@sick_travel_energy_is_one_half replay flat 0 first_sick_day
              small_world [first_sick_day] one_tick a' after_draw
              eq_refl eq_refl ltac:(simpl; lra) Hup)
    as [[Hn _] | (_ & Hb & Hs & Hi & Ht & _)].
  - discriminate Hn.
  - exact (conj Hb (conj Hs (conj Hi Ht))).
Defined.

(** C3 fails as stated: an agent constructed with the travel energy 2 comes
    out of its first symptomatic day with the travel energy 0.5, which is not
    half of 2. *)
Lemma sick_travel_energy_is_not_half_the_original :
  travelerBiasO first_sick_day = 2
  /\ alive first_sick_day = true /\ infected first_sick_day = true
  /\ asymptomaticTimer first_sick_day <= 0
  /\ exists a' s',
       @Agent.update replay flat 0 first_sick_day small_world [first_sick_day]
         one_tick = Done (a', s')
       /\ travelerBias a' <> travelerBiasO first_sick_day / 2.
Proof.
  split; [reflexivity |]. split; [reflexivity |]. split; [reflexivity |].
  split; [simpl; lra |].
  destruct first_sick_day_tick as [a' [Hup Hb]].
  exists a', after_draw. split; [exact Hup |].
  rewrite Hb. simpl. lra.
Qed.

(** C8.  An agent returned by the constructor has its age in [0,104] and both
    components of its position in [0,1], and so has it after any number of
    calls of [agent.update].  Hence the cell [int(position * scale)] is a cell
    of the array of shape (scale+1, scale+1) for any scale that is not
    negative, and no call of [agent.update] on such an environment raises an
    index error. *)
Theorem age_and_position_bounds {G : Generator} {L : GeneratorLaws G}
        {P : SciPy} a0 a :
  constructed a0 -> evolves a0 a ->
  0 <= age a <= 104
  /\ 0 <= fst (location a) <= 1 /\ 0 <= snd (location a) <= 1
  /\ (forall sc, (0 <= sc)%Z ->
        in_grid sc (fst (cell_of sc a)) (snd (cell_of sc a)))
  /\ (forall fuel landscape population s,
        (0 <= scale landscape)%Z ->
        Agent.update fuel a landscape population s <> IndexError).
Proof.
  intros Hc He.
  assert (Hinv : 0 <= age a <= 104
                 /\ 0 <= fst (location a) <= 1 /\ 0 <= snd (location a) <= 1).
  { induction He as [a | a b c fuel landscape population s s' _ IH Hstep].
    - destruct Hc as (fuel & ab & cb & sb & tb & g & bias & s & s' & Hinit).
      eapply init_bounds; eassumption.
    - specialize (IH Hc). destruct IH as (Hage & Hx & Hy).
      pose proof (update_constants _ _ _ _ _ _ _ Hstep) as (Hsame & _).
      apply update_location in Hstep.
      split; [rewrite Hsame; assumption |].
      destruct Hstep as [[_ ->] | [_ Hin]]; [tauto |].
      apply inside_iff in Hin. lra. }
  destruct Hinv as (Hage & Hx & Hy).
  split; [assumption |]. split; [assumption |]. split; [assumption |].
  split.
  - intros sc Hsc. apply cell_of_in_grid; assumption.
  - intros fuel landscape population s Hsc. apply update_no_index; assumption.
Qed.

Lemma age_and_position_bounds_witness :
  @constructed replay flat resident
  /\ @evolves replay flat resident (set_location resident (0.52, 0.48))
  /\ 0 <= age (set_location resident (0.52, 0.48)) <= 104
  /\ 0 <= 0.52 <= 1 /\ 0 <= 0.48 <= 1
  /\ in_grid 100
       (fst (cell_of 100 (set_location resident (0.52, 0.48))))
       (snd (cell_of 100 (set_location resident (0.52, 0.48)))).
Proof.
  assert (Hc : @constructed replay flat resident).
  { exists 0%nat, (-1), 0, 0, 2, 2%nat, None, birth, after_draw.
    apply resident_born. }
  assert (He : @evolves replay flat resident (set_location resident (0.52, 0.48))).
  { eapply evolves_step; [apply evolves_refl | apply resident_tick]. }
  split; [exact Hc |]. split; [exact He |].
  destruct (@age_and_position_bounds replay replay_laws flat _ _ Hc He)
    as (Hage & Hx & Hy & Hcell & _).
  split; [exact Hage |]. split; [exact Hx |]. split; [exact Hy |].
  apply Hcell. lia.
Defined.

(** C9 fails on the code.  The attribute [symptomatic] is set to [False] by
    the constructor and no branch of [update] assigns it: an infected agent
    whose asymptomatic timer goes from 0.5 to -0.5 in a call comes out in the
    symptomatic phase (infected, timer not positive) with [symptomatic] still
    [False]. *)
Theorem symptomatic_attribute_is_stale :
  @constructed replay flat resident
  /\ incubating = set_infected resident true
  /\ exists a' s',
       @Agent.update replay flat 0 incubating small_world [incubating] one_tick
       = Done (a', s')
       /\ infected a' = true /\ asymptomaticTimer a' <= 0
       /\ in_symptomatic_phase a' = true
       /\ symptomatic a' = false.
Proof.
  split.
  { exists 0%nat, (-1), 0, 0, 2, 2%nat, None, birth, after_draw.
    apply resident_born. }
  split; [reflexivity |].
  eexists. eexists. split; [apply incubating_tick |].
  split; [reflexivity |].
  split; [simpl; lra |].
  split; [| reflexivity].
  unfold in_symptomatic_phase. simpl.
  apply Rleb_true. lra.
Qed.

(** C10.  For an agent whose asymptomatic timer starts at a sampled duration
    that is not negative (as the constructor leaves it), after any number of
    calls of [agent.update] the timer is greater than -1; a call takes 1 off
    it only when it is positive; once it is 0 or less it keeps its value over
    any number of calls, unless the agent has recovered, in which case it is
    back at the sampled duration.  And it can become negative: from 0.5 one
    call takes it to -0.5. *)
Theorem asymptomatic_timer_range :
  (forall (G : Generator) (P : SciPy) a a',
      evolves a a' ->
      0 <= asymptomaticTime a -> asymptomaticTimer a = asymptomaticTime a ->
      -1 < asymptomaticTimer a'
      /\ (forall fuel landscape population s b s',
            Agent.update fuel a' landscape population s = Done (b, s') ->
            asymptomaticTimer b = asymptomaticTimer a' - 1 ->
            0 < asymptomaticTimer a')
      /\ (asymptomaticTimer a' <= 0 ->
          forall b, evolves a' b ->
            asymptomaticTimer b = asymptomaticTimer a'
            \/ (infected b = false /\ protected b = true
                /\ asymptomaticTimer b = asymptomaticTime a)))
  /\ (forall (G : Generator) (P : SciPy) a,
        constructed a -> asymptomaticTimer a = asymptomaticTime a)
  /\ (exists a a',
        @evolves replay flat a a'
        /\ 0 <= asymptomaticTime a /\ asymptomaticTimer a = asymptomaticTime a
        /\ asymptomaticTimer a' < 0).
Proof.
  split; [| split].
  - intros G P a a' He Htime Hstart.
    pose proof (evolves_constants _ _ He) as (_ & _ & _ & Hc & _).
    assert (Hlow : -1 < asymptomaticTimer a').
    { apply (evolves_timer_lower _ _ He); lra. }
    split; [exact Hlow |]. split.
    + intros fuel landscape population s b s' Hup Hdec.
      apply update_asymptomaticTimer in Hup.
      destruct Hup as [(_ & _ & Hpos & _) | [(_ & _ & _ & _ & _ & _ & Heq) | Heq]].
      * exact Hpos.
      * lra.
      * lra.
    + intros Hle b Hb. rewrite <- Hc.
      apply (evolves_timer_fixed _ _ Hb Hle).
  - intros G P a (fuel & ab & cb & sb & tb & g & bias & s & s' & Hinit).
    apply init_initial in Hinit. tauto.
  - exists incubating.
    exists (set_asymptomaticTimer (set_location incubating (0.52, 0.48)) (0.5 - 1)).
    split.
    + eapply evolves_step; [apply evolves_refl | apply incubating_tick].
    + simpl. lra.
Qed.

Lemma asymptomatic_timer_range_witness :
  @evolves replay flat incubating
     (set_asymptomaticTimer (set_location incubating (0.52, 0.48)) (0.5 - 1))
  /\ -1 < 0.5 - 1.
Proof.
  assert (He : @evolves replay flat incubating
                 (set_asymptomaticTimer
                    (set_location incubating (0.52, 0.48)) (0.5 - 1))).
  { eapply evolves_step; [apply evolves_refl | apply incubating_tick]. }
  split; [exact He |].
  apply (proj1 (proj1 asymptomatic_timer_range replay flat _ _ He
                  ltac:(simpl; lra) eq_refl)).
Defined.

(* ================================================================== *)
(** * Further properties of the code *)

(** ** [environment.update] *)

(** X1.  [environment.update] works cell by cell: the new load of a cell is
    its old load, taken through the effect of each agent of the population in
    the order of the list, then attenuated; no other cell enters into it. *)
Theorem environment_update_is_cellwise e population x y :
  viralMap (Environment.update e population) x y
  = fold_left (fun v p => cell_effect (attenuation e) (scale e) (AOE e) p x y v)
      population (viralMap e x y) * attenuation e.
Proof. apply update_cellwise. Qed.

(** X2.  A field nobody disturbs decays geometrically: when [AOE] is negative
    (the block is empty) or no agent contributes (each is dead, or healthy
    with no cleaning), [n] updates multiply every cell by [attenuation ^ n]. *)
Theorem undisturbed_field_decays e populations x y :
  (AOE e < 0)%Z
  \/ Forall (Forall (fun p => Environment.contributes p = false)) populations ->
  viralMap (run_environment e populations) x y
  = viralMap e x y * attenuation e ^ length populations.
Proof.
  revert e. unfold run_environment.
  induction populations as [| pop populations IH]; intros e H; simpl.
  - lra.
  - rewrite IH.
    + rewrite update_cellwise. simpl attenuation.
      rewrite fold_cell_effect_unreached; [lra |].
      destruct H as [Haoe | Hpops].
      * apply Forall_forall. intros p _. apply reaches_negative_AOE. assumption.
      * inversion Hpops as [| ? ? Hpop _]; subst.
        eapply Forall_impl; [| exact Hpop].
        intros p Hp. apply reaches_noncontributor. assumption.
    + destruct H as [Haoe | Hpops]; [left; exact Haoe | right].
      inversion Hpops; assumption.
Qed.

Lemma undisturbed_field_decays_witness :
  viralMap (run_environment saturated_world
              [[resident]; [deceased; resident]; []]) 3%Z 7%Z
  = 1 * 0.4 ^ 3.
Proof.
  apply (undisturbed_field_decays saturated_world
           [[resident]; [deceased; resident]; []] 3%Z 7%Z).
  right. repeat constructor; unfold Environment.contributes; simpl;
    rewrite ?Reqb_true by reflexivity; reflexivity.
Defined.

(** X3.  [environment.update] is monotone in the field: with an attenuation
    that is not negative, a field that is larger at a cell is still larger at
    that cell after the update by the same population. *)
Theorem environment_update_is_monotone e e' population x y :
  attenuation e' = attenuation e -> scale e' = scale e -> AOE e' = AOE e ->
  0 <= attenuation e ->
  viralMap e x y <= viralMap e' x y ->
  viralMap (Environment.update e population) x y
  <= viralMap (Environment.update e' population) x y.
Proof.
  intros Hatt Hsc Haoe H0 Hle.
  rewrite !update_cellwise, Hatt, Hsc, Haoe.
  apply Rmult_le_compat_r; [assumption |].
  apply fold_cell_effect_monotone. assumption.
Qed.

Lemma environment_update_is_monotone_witness :
  viralMap (Environment.update small_world [corner_patient]) 1%Z 1%Z
  <= viralMap (Environment.update
                 (mkEnvironment 2 0.5 1 100 (fun _ _ => 0.3))
                 [corner_patient]) 1%Z 1%Z.
Proof.
  apply (environment_update_is_monotone small_world
           (mkEnvironment 2 0.5 1 100 (fun _ _ => 0.3))); simpl;
    try reflexivity; lra.
Defined.



(** X5.  When no agent cleans, the cell a living infected agent stands on
    ends every update at the largest load there is after the decay, the
    attenuation itself, whatever the other agents and the load before. *)
Theorem infected_cell_is_saturated e population p :
  Forall (fun q => cleanlinessBias q = 0) population ->
  In p population -> alive p = true -> infected p = true ->
  (0 <= AOE e)%Z ->
  let i := fst (cell_of (scale e) p) in
  let j := snd (cell_of (scale e) p) in
  in_grid (scale e) i j -> 0 <= viralMap e i j ->
  viralMap (Environment.update e population) i j = attenuation e.
Proof. apply saturated_cell. Qed.

Lemma infected_cell_is_saturated_witness :
  viralMap (Environment.update small_world [resident; corner_patient]) 0%Z 0%Z
  = 0.5.
Proof.
  pose proof (infected_cell_is_saturated small_world [resident; corner_patient]
                corner_patient) as H.
  cbv zeta in H. rewrite corner_patient_cell in H.
  apply H.
  - repeat constructor.
  - right; left; reflexivity.
  - reflexivity.
  - reflexivity.
  - simpl. lia.
  - unfold in_grid. simpl. lia.
  - simpl. lra.
Defined.

(** X6.  Deposits only raise and cleaning only lowers: on a cell whose load
    is in [0,1], a population in which nobody cleans leaves at least the
    attenuated load, and a population in which no living agent is infected
    (and no cleaning effectiveness is negative) leaves at most the attenuated
    load. *)
Theorem deposits_raise_and_cleaning_lowers e population x y :
  0 <= attenuation e -> 0 <= viralMap e x y <= 1 ->
  (Forall (fun p => cleanlinessBias p = 0) population ->
   viralMap e x y * attenuation e
   <= viralMap (Environment.update e population) x y)
  /\ (Forall (fun p => (alive p && infected p)%bool = false
                       /\ 0 <= cleanlinessBias p) population ->
      viralMap (Environment.update e population) x y
      <= viralMap e x y * attenuation e).
Proof.
  intros Hatt Hv. rewrite update_cellwise. split; intros Hpop.
  - apply Rmult_le_compat_r; [assumption |].
    apply fold_cell_effect_raises; assumption.
  - apply Rmult_le_compat_r; [assumption |].
    apply fold_cell_effect_lowers; [assumption | lra].
Qed.

Lemma deposits_raise_and_cleaning_lowers_witness :
  viralMap saturated_world 0%Z 0%Z * 0.4
  <= viralMap (Environment.update saturated_world [corner_patient]) 0%Z 0%Z
  /\ viralMap (Environment.update saturated_world [corner_cleaner]) 0%Z 0%Z
     <= viralMap saturated_world 0%Z 0%Z * 0.4.
Proof.
  split.
  - apply (proj1 (deposits_raise_and_cleaning_lowers saturated_world
                    [corner_patient] 0%Z 0%Z
                    ltac:(simpl; lra) ltac:(simpl; lra))).
    repeat constructor.
  - apply (proj2 (deposits_raise_and_cleaning_lowers saturated_world
                    [corner_cleaner] 0%Z 0%Z
                    ltac:(simpl; lra) ltac:(simpl; lra))).
    repeat constructor. simpl. lra.
Defined.

(** ** [agent.update] *)

(** X7.  The field is the only way to an infection.  A living agent that is
    neither infected nor protected moves, and then comes out infected exactly
    when one uniform draw is below the load of the cell it moved to, a cell of
    the array; so never on a load of 0 or less, and always on a load of 1 or
    more.  Nothing but its location and this flag changes. *)
Theorem exposure_depends_on_the_load {G : Generator} {L : GeneratorLaws G}
        {P : SciPy} fuel a landscape population s l s1 :
  alive a = true -> infected a = false -> protected a = false ->
  (0 <= scale landscape)%Z ->
  Agent.move fuel a population s = Done (l, s1) ->
  let i := py_int (fst l * IZR (scale landscape)) in
  let j := py_int (snd l * IZR (scale landscape)) in
  let load := viralMap landscape i j in
  exists a',
    Agent.update fuel a landscape population s = Done (a', snd (rand s1))
    /\ in_grid (scale landscape) i j
    /\ (infected a' = true <-> fst (rand s1) < load)
    /\ (load <= 0 -> infected a' = false)
    /\ (1 <= load -> infected a' = true)
    /\ a' = set_infected (set_location a l) (infected a').
Proof.
  intros Ha Hi Hp Hsc Hm i j load.
  pose proof (move_inside _ _ _ _ _ _ Hm) as Hin. apply inside_iff in Hin.
  assert (Hg : in_grid (scale landscape) i j).
  { apply (cell_of_in_grid (scale landscape) (set_location a l)); simpl;
      [assumption | lra | lra]. }
  pose proof (rand_range s1) as Hu.
  rewrite (update_alive _ _ _ _ _ _ _ Ha Hm).
  rewrite progress_exposed by assumption.
  change (fst (cell_of (scale landscape) (set_location a l))) with i.
  change (snd (cell_of (scale landscape) (set_location a l))) with j.
  rewrite grid_get_in_grid by assumption. fold load.
  destruct (Rlt_dec (fst (rand s1)) load) as [Hlt | Hge].
  - rewrite Rltb_true by assumption. eexists. split; [reflexivity |].
    split; [assumption |]. simpl.
    split; [tauto |]. split; [intros; lra |]. split; reflexivity.
  - rewrite Rltb_false by lra. eexists. split; [reflexivity |].
    split; [assumption |]. simpl. rewrite Hi.
    split; [split; [discriminate | contradiction] |].
    split; [reflexivity |]. split; [intros; lra |].
    destruct a; simpl in *; subst; reflexivity.
Qed.

Lemma exposure_depends_on_the_load_witness :
  exists a',
    @Agent.update replay flat 0 resident small_world [resident] one_tick
    = Done (a', snd (@rand replay after_move))
    /\ infected a' = false.
Proof.
  destruct (@exposure_depends_on_the_load replay replay_laws flat 0 resident
              small_world [resident] one_tick (0.52, 0.48) after_move
              eq_refl eq_refl eq_refl ltac:(simpl; lia)
              (resident_moves 0 resident [resident]
                 eq_refl eq_refl eq_refl eq_refl))
    as (a' & Hup & _ & _ & Hzero & _).
  exists a'. split; [exact Hup |].
  apply Hzero. simpl. lra.
Defined.

(** X8.  [update] kills only in the symptomatic phase and revives nobody: a
    dead agent comes out as it went in, and a living agent that comes out
    dead was infected with its asymptomatic timer run down, was not on the
    last day of its infection, and drew at least the threshold. *)
Theorem death_only_in_the_symptomatic_phase {G : Generator} {P : SciPy}
        fuel a landscape population s a' s' :
  Agent.update fuel a landscape population s = Done (a', s') ->
  (alive a = false -> a' = a)
  /\ (alive a = true -> alive a' = false ->
      infected a = true /\ asymptomaticTimer a <= 0
      /\ infectionTimer a <> 1%Z
      /\ exists l s1, Agent.move fuel a population s = Done (l, s1)
                      /\ survivalThreshold a <= fst (rand s1)).
Proof.
  intros H. split.
  - intros Ha. rewrite update_dead in H by assumption. inversion H. reflexivity.
  - intros Ha Hd. apply update_cases in H.
    destruct H as [[Ha' _] | [_ [l [s1 [Hm [_ [Hp _]]]]]]]; [congruence |].
    destruct (infected a) eqn:Hi.
    + destruct (Rlt_dec 0 (asymptomaticTimer a)) as [Ht | Ht].
      * rewrite progress_incubating in Hp by assumption.
        inversion Hp; subst. simpl in Hd. congruence.
      * assert (Ht' : asymptomaticTimer a <= 0) by lra.
        destruct (Z.eq_dec (infectionTimer a) 1) as [Hn | Hn].
        -- rewrite progress_healed in Hp by assumption.
           inversion Hp; subst. simpl in Hd. congruence.
        -- rewrite progress_sick in Hp by assumption.
           inversion Hp; subst.
           split; [reflexivity |]. split; [assumption |]. split; [assumption |].
           exists l, s1. split; [assumption |].
           change (survivalThreshold (set_location a l))
             with (survivalThreshold a) in Hd.
           destruct (Rle_dec (survivalThreshold a) (fst (rand s1)))
             as [Hle | Hgt]; [assumption |].
           rewrite Rleb_false in Hd by lra. simpl in Hd. congruence.
    + destruct (protected a) eqn:Hpr.
      * rewrite progress_immune in Hp by assumption.
        inversion Hp; subst. simpl in Hd. congruence.
      * rewrite progress_exposed in Hp by assumption.
        destruct (grid_get _ _ _); [| discriminate].
        inversion Hp; subst.
        destruct (Rltb _ _); simpl in Hd; congruence.
Qed.

Lemma death_only_in_the_symptomatic_phase_witness :
  infected first_sick_day = true /\ asymptomaticTimer first_sick_day <= 0
  /\ infectionTimer first_sick_day <> 1%Z
  /\ exists l s1,
       @Agent.move replay flat 0 first_sick_day [first_sick_day] fatal_tick
       = Done (l, s1)
       /\ survivalThreshold first_sick_day <= fst (@rand replay s1).
Proof.
  apply (proj2 (@death_only_in_the_symptomatic_phase replay flat 0
                  first_sick_day small_world [first_sick_day] fatal_tick
                  _ _ fatal_tick_kills)); reflexivity.
Defined.

(** X9.  The incubation takes as many calls as the asymptomatic duration
    rounded up: as long as fewer calls have been made than the timer plus
    one, each call has taken 1 off the timer and left the agent alive,
    infected, and with its infection timer, travel energy and protection as
    they were. *)
Theorem incubation_counts_down {G : Generator} {P : SciPy} n a a' :
  evolves_in n a a' ->
  alive a = true -> infected a = true -> INR n < asymptomaticTimer a + 1 ->
  alive a' = true /\ infected a' = true
  /\ asymptomaticTimer a' = asymptomaticTimer a - INR n
  /\ infectionTimer a' = infectionTimer a
  /\ travelerBias a' = travelerBias a
  /\ protected a' = protected a.
Proof. apply incubation_run. Qed.

Lemma incubation_counts_down_witness :
  asymptomaticTimer
    (set_asymptomaticTimer (set_location incubating (0.52, 0.48)) (0.5 - 1))
  = asymptomaticTimer incubating - INR 1.
Proof.
  apply (@incubation_counts_down replay flat 1 incubating).
  - eapply evolves_in_S; [apply evolves_in_O | apply incubating_tick].
  - reflexivity.
  - reflexivity.
  - simpl. lra.
Defined.

(** X10.  The symptomatic phase takes as many calls as the infection timer
    counts.  A symptomatic agent that is alive after [n] calls is still
    infected with its infection timer [n] lower when [n] is below the timer,
    and has just recovered (not infected, protected, timers and travel energy
    reset) when [n] is the timer. *)
Theorem illness_counts_down {G : Generator} {P : SciPy} n a a' :
  evolves_in n a a' ->
  infected a = true -> asymptomaticTimer a <= 0 ->
  (1 <= infectionTimer a)%Z -> alive a' = true ->
  ((Z.of_nat n < infectionTimer a)%Z ->
   infected a' = true
   /\ asymptomaticTimer a' = asymptomaticTimer a
   /\ infectionTimer a' = (infectionTimer a - Z.of_nat n)%Z)
  /\ (Z.of_nat n = infectionTimer a ->
      infected a' = false /\ protected a' = true
      /\ infectionTimer a' = infectionTime a
      /\ asymptomaticTimer a' = asymptomaticTime a
      /\ travelerBias a' = travelerBiasO a).
Proof.
  intros Hrun Hi Ht H1 Halive. split.
  - intros Hn.
    destruct (illness_run _ _ _ Hrun Hi Ht Hn Halive) as (? & ? & ? & _).
    repeat split; assumption.
  - intros Hn. eapply recovery_run; eassumption.
Qed.

Lemma illness_counts_down_witness :
  infectionTimer (sickDay (set_location sick (0.51, 0.49))) = (13 - 1)%Z
  /\ infected (heal (sickDay (set_location last_day (0.51, 0.49)))) = false.
Proof.
  split.
  - apply (proj1 (@illness_counts_down replay flat 1 sick _
                    (evolves_in_S _ _ _ _ _ _ _ _ _ (evolves_in_O sick)
                       sick_tick_survives)
                    eq_refl ltac:(simpl; lra) ltac:(simpl; lia) eq_refl)).
    simpl. lia.
  - apply (proj2 (@illness_counts_down replay flat 1 last_day _
                    (evolves_in_S _ _ _ _ _ _ _ _ _ (evolves_in_O last_day)
                       last_day_tick)
                    eq_refl ltac:(simpl; lra) ltac:(simpl; lia) eq_refl)).
    reflexivity.
Defined.

(** X11.  The infection timer is never out of range: for an agent returned
    by the constructor, after any number of calls of [update], the infection
    lasts 14 or 28 days (28 with a pre-existing condition) and the infection
    timer is between 1 and that duration. *)
Theorem infection_timer_range {G : Generator} {P : SciPy} a0 a :
  constructed a0 -> evolves a0 a ->
  (infectionTime a = 14 \/ infectionTime a = 28)%Z
  /\ (1 <= infectionTimer a <= infectionTime a)%Z
  /\ (preexistingCondition a = true -> infectionTime a = 28%Z).
Proof.
  intros (fuel & ab & cb & sb & tb & g & bias & s & s' & Hinit) He.
  pose proof (init_preexisting _ _ _ _ _ _ _ _ _ _ Hinit) as Hpre.
  apply init_initial in Hinit.
  destruct Hinit as (_ & _ & _ & _ & _ & _ & Htimer & _ & Htime).
  pose proof (evolves_constants _ _ He) as (_ & _ & HT & _ & _ & _ & HP).
  split; [rewrite HT; exact Htime |].
  split; [| rewrite HT, HP; exact Hpre].
  clear Hpre HT HP.
  induction He as [a | a b c fuel' landscape population s1 s1' _ IH Hstep].
  - lia.
  - eapply update_infectionTimer; [eassumption |].
    apply IH; assumption.
Qed.

Lemma infection_timer_range_witness :
  (1 <= infectionTimer (set_location resident (0.52, 0.48)%R)
   <= infectionTime (set_location resident (0.52, 0.48)%R))%Z.
Proof.
  apply (@infection_timer_range replay flat resident).
  - exists 0%nat, (-1), 0, 0, 2, 2%nat, None, birth, after_draw.
    apply resident_born.
  - eapply evolves_step; [apply evolves_refl | apply resident_tick].
Defined.

(** X12.  For an agent returned by the constructor, after any number of
    calls of [update]: it is not at once infected and protected; and from
    then on protection is never lost and the dead do not come back. *)
Theorem infected_excludes_protected {G : Generator} {P : SciPy} a0 a :
  constructed a0 -> evolves a0 a ->
  (infected a = true -> protected a = false)
  /\ forall b, evolves a b ->
       (protected a = true -> protected b = true)
       /\ (alive b = true -> alive a = true).
Proof.
  intros (fuel & ab & cb & sb & tb & g & bias & s & s' & Hinit) He.
  apply init_initial in Hinit.
  destruct Hinit as (_ & _ & Hi0 & _ & _ & Hp0 & _).
  assert (Hinv : forall x y, evolves x y ->
            (infected x = true -> protected x = false) ->
            (infected y = true -> protected y = false)
            /\ (protected x = true -> protected y = true)
            /\ (alive y = true -> alive x = true)).
  { clear. intros x y Hxy.
    induction Hxy as [x | x y z fuel landscape population s s' _ IH Hstep];
      intros Hx; [tauto |].
    destruct (IH Hx) as (Hy & Hpy & Hay).
    destruct (update_flags _ _ _ _ _ _ _ Hstep Hy) as (Hz & Hpz & Haz).
    tauto. }
  destruct (Hinv _ _ He) as (Ha & _); [congruence |].
  split; [exact Ha |].
  intros b Hb. destruct (Hinv _ _ Hb Ha) as (_ & Hpb & Hab). tauto.
Qed.

Lemma infected_excludes_protected_witness :
  protected (set_infected (set_location resident (0.52, 0.48)) true) = false.
Proof.
  apply (@infected_excludes_protected replay flat resident).
  - exists 0%nat, (-1), 0, 0, 2, 2%nat, None, birth, after_draw.
    apply resident_born.
  - eapply evolves_step; [apply evolves_refl | apply resident_caught].
  - reflexivity.
Defined.

(** X13.  A living agent comes out of [update] on an inner point of its
    grid: both components of its position are whole multiples of
    [10 ** -locationGranularity] strictly between 0 and 1.  With a
    granularity of 0 there is no such point, and the call cannot return. *)
Theorem moved_onto_the_inner_grid {G : Generator} {P : SciPy}
        fuel a landscape population s a' s' :
  alive a = true ->
  Agent.update fuel a landscape population s = Done (a', s') ->
  on_inner_grid (locationGranularity a) (location a')
  /\ locationGranularity a <> 0%nat.
Proof.
  intros Ha H. apply update_cases in H.
  destruct H as [[Hd _] | [_ [l [s1 [Hm [_ [_ Hp]]]]]]]; [congruence |].
  apply progressed_constants in Hp. destruct Hp as [_ Hl].
  simpl in Hl. rewrite Hl.
  pose proof (move_on_inner_grid _ _ _ _ _ _ Hm) as Hgrid.
  split; [exact Hgrid |].
  intros Hg. rewrite Hg in Hgrid.
  destruct Hgrid as (kx & ky & _ & Hkx & _). simpl in Hkx. lia.
Qed.

Lemma moved_onto_the_inner_grid_witness :
  on_inner_grid 2 (0.52, 0.48).
Proof.
  apply (proj1 (@moved_onto_the_inner_grid replay flat 0 resident small_world
                  [resident] one_tick _ _ eq_refl resident_tick)).
Defined.



(** X15.  The closest friends are the entries of ranks 1 to 10 of the
    population ordered by distance to the agent: there is an ordering of the
    positions of the population by nondecreasing squared distance of which
    [closestFriends] takes the second to the eleventh entry.  So they are
    [min 10 (n - 1)] positions of members of the population, and the entry
    left out in front is at the agent's own position whenever some member
    is. *)
Theorem closest_friends_are_ranks_1_to_10 population here :
  let locations := map location population in
  let keys := map (fun l => dist2 l here) locations in
  exists order,
    Permutation order (seq 0 (length population))
    /\ StronglySorted (key_le keys) order
    /\ closestFriends population here
       = map (fun k => nth k locations (0, 0)) (firstn 10 (skipn 1 order))
    /\ length (closestFriends population here)
       = Nat.min 10 (length population - 1)
    /\ (forall f, In f (closestFriends population here) ->
          exists p, In p population /\ location p = f)
    /\ (forall k, hd_error order = Some k -> In here locations ->
          nth k locations (0, 0) = here).
Proof.
  intros locations keys.
  assert (Hlen : length keys = length population).
  { unfold keys, locations. rewrite !length_map. reflexivity. }
  assert (Hlocs : length locations = length population).
  { unfold locations. rewrite length_map. reflexivity. }
  exists (argsort keys).
  pose proof (argsort_permutation keys) as Hperm. rewrite Hlen in Hperm.
  pose proof (argsort_sorted keys) as Hsorted.
  split; [exact Hperm |]. split; [exact Hsorted |].
  split; [reflexivity |]. split; [| split].
  - unfold closestFriends. fold locations. fold keys.
    rewrite length_map, length_firstn, length_skipn, argsort_length, Hlen.
    reflexivity.
  - intros f Hf. unfold closestFriends in Hf. fold locations in Hf.
    fold keys in Hf. apply in_map_iff in Hf.
    destruct Hf as (k & <- & Hk).
    apply in_firstn_skipn in Hk. apply argsort_in_range in Hk.
    rewrite Hlen, <- Hlocs in Hk.
    pose proof (nth_In locations (0, 0) Hk) as Hin.
    unfold locations in Hin at 2. apply in_map_iff in Hin.
    destruct Hin as (p & Hp & Hpin). exists p. split; assumption.
  - intros k Hhd Hhere.
    destruct (argsort keys) as [| k' rest] eqn:Horder; [discriminate |].
    simpl in Hhd. inversion Hhd; subst k'.
    assert (Hk : (k < length locations)%nat).
    { rewrite Hlocs, <- Hlen. apply argsort_in_range. rewrite Horder.
      left; reflexivity. }
    apply In_nth with (d := (0, 0)) in Hhere.
    destruct Hhere as (m & Hm & Hnth).
    assert (Hmin : In m (k :: rest)).
    { apply (Permutation_in _ (Permutation_sym Hperm)).
      apply in_seq. rewrite Hlocs in Hm. lia. }
    assert (Hle : key_le keys k m).
    { destruct Hmin as [<- | Hmin]; [unfold key_le; lra |].
      inversion Hsorted as [| ? ? _ Hall]; subst.
      rewrite Forall_forall in Hall. apply Hall. assumption. }
    unfold key_le, keys in Hle.
    rewrite !nth_keys in Hle by assumption.
    rewrite Hnth in Hle.
    assert (Hzero : dist2 here here = 0) by (unfold dist2; lra).
    pose proof (dist2_nonneg (nth k locations (0, 0)) here).
    apply dist2_zero. lra.
Qed.

(** ** [agent.__init__] and the mortality table *)

(** X16.  With a mean age that is not positive the constructor has no
    loop and returns for every state of the generator and every bound; the
    age it draws lies in the first four years of one of the 21 five-year
    groups, so it never falls between two brackets of the mortality table:
    below 80 the age factor is below the top rate 0.148. *)
Theorem world_age_is_in_a_bracket {G : Generator} {L : GeneratorLaws G}
        {P : SciPy} fuel ab cb sb tb g bias s :
  ab <= 0 ->
  exists a s',
    Agent.init fuel ab cb sb tb g bias s = Done (a, s')
    /\ (exists k, (k <= 20)%nat /\ 5 * INR k <= age a < 5 * INR k + 4)
    /\ (age a < 80 -> ageFactor (age a) < 0.148).
Proof.
  intros Hab.
  destruct (init_world_returns fuel ab cb sb tb g bias s Hab) as (a & s' & Hinit).
  exists a, s'. split; [exact Hinit |].
  apply init_age in Hinit. destruct Hinit as (s1 & Hage).
  rewrite age_distribution_world in Hage by assumption.
  inversion Hage as [[Ha Hs]]. clear Hage Hs.
  pose proof (choice_range worldPopulationWeights s) as Hc.
  rewrite worldPopulationWeights_length in Hc.
  assert (Hk : (fst (choice worldPopulationWeights s) <= 20)%nat).
  { assert (fst (choice worldPopulationWeights s) < 21)%nat; [| lia].
    apply Hc. intros Hnil.
    pose proof worldPopulationWeights_length as Hlen.
    rewrite Hnil in Hlen. discriminate. }
  pose proof (rand_range (snd (choice worldPopulationWeights s))) as Hu.
  assert (Hbracket : 5 * INR (fst (choice worldPopulationWeights s)) <= age a
                     < 5 * INR (fst (choice worldPopulationWeights s)) + 4).
  { rewrite <- Ha. lra. }
  split.
  - exists (fst (choice worldPopulationWeights s)). split; [exact Hk | lra].
  - intros H80.
    apply (bracketed_age_factor (fst (choice worldPopulationWeights s)));
      lra.
Qed.

Lemma world_age_is_in_a_bracket_witness :
  exists a s',
    @Agent.init replay flat 0 (-1) 0 0 2 2 None birth = Done (a, s')
    /\ (age a < 80 -> ageFactor (age a) < 0.148).
Proof.
  destruct (@world_age_is_in_a_bracket replay replay_laws flat 0 (-1) 0 0 2
              2%nat None birth ltac:(lra))
    as (a & s' & Hinit & _ & Hfactor).
  exists a, s'. split; assumption.
Defined.

(** X17.  The daily threshold of the death check compounds to the rate of
    the table: over as many days as the infection lasts the thresholds
    multiply to [1 - max_rate], and the death probability of one day,
    [1 - threshold], is positive and at most [max_rate]. *)
Theorem daily_hazard_compounds a :
  (1 <= infectionTime a)%Z ->
  survivalThreshold a ^ Z.to_nat (infectionTime a) = 1 - max_rate a
  /\ 0 < 1 - survivalThreshold a <= max_rate a
  /\ 0.002 <= max_rate a <= 0.148.
Proof.
  intros HT.
  pose proof (survivalThreshold_range a HT) as [Hlo Hhi].
  split; [apply survivalThreshold_pow; assumption |].
  split; [lra | apply max_rate_range].
Qed.

Lemma daily_hazard_compounds_witness :
  survivalThreshold resident ^ 14 = 1 - max_rate resident.
Proof.
  apply (proj1 (daily_hazard_compounds resident ltac:(simpl; lia))).
Defined.

(** ** simulate.py *)

(** X18.  The population of the script is always built: the comprehension
    returns [populationSize] agents for every state of the generator and
    every bound, and each of them is alive and healthy, cleans nothing,
    never distances itself, and has a travel energy in [1, 3.5). *)
Theorem script_population_is_built {G : Generator} {L : GeneratorLaws G}
        {P : SciPy} fuel populationSize s :
  exists population s',
    Simulate.make_population fuel populationSize s = Done (population, s')
    /\ length population = populationSize
    /\ Forall script_agent population.
Proof. apply make_population_returns. Qed.

Lemma script_population_is_built_witness :
  exists population s',
    @Simulate.make_population replay flat 0 3 birth = Done (population, s')
    /\ length population = 3%nat.
Proof.
  destruct (@script_population_is_built replay replay_laws flat 0 3 birth)
    as (population & s' & Hmake & Hlen & _).
  exists population, s'. split; assumption.
Defined.

(** X19.  One sweep of the population updates agents in place and loses
    nobody: when it returns, [populationSize] is at most the length of the
    list (a larger one runs off the list), the list is as long as before,
    every agent is the result of calls of [update] on the agent at its
    position, a dead agent is the very same, and the number of dead has not
    dropped.  With [populationSize] at most the length and a scale that is
    not negative the sweep raises no index error. *)
Theorem sweep_keeps_the_dead {G : Generator} {P : SciPy}
        fuel landscape populationSize population s :
  (forall population' s',
      Simulate.sweep fuel landscape (seq 0 populationSize) population s
      = Done (population', s') ->
      (populationSize <= length population)%nat
      /\ length population' = length population
      /\ Forall2 survives population population'
      /\ (Simulate.numDead population <= Simulate.numDead population')%Z)
  /\ ((populationSize <= length population)%nat ->
      (0 <= scale landscape)%Z ->
      Simulate.sweep fuel landscape (seq 0 populationSize) population s
      <> IndexError).
Proof.
  split.
  - intros population' s' H. apply sweep_survives in H.
    destruct H as [Hind Hrel].
    split.
    + destruct populationSize as [| n]; [lia |].
      rewrite Forall_forall in Hind.
      assert (n < length population)%nat; [| lia].
      apply Hind. apply in_seq. lia.
    + split; [symmetry; apply (Forall2_length Hrel) |].
      split; [exact Hrel | apply survives_numDead; exact Hrel].
  - intros Hn Hsc. apply sweep_no_index; [| assumption].
    apply Forall_forall. intros a Ha. apply in_seq in Ha. lia.
Qed.

Lemma sweep_keeps_the_dead_witness :
  (Simulate.numDead [deceased; resident]
   <= Simulate.numDead [deceased; set_location resident (0.52, 0.48)%R])%Z.
Proof.
  apply (proj1 (@sweep_keeps_the_dead replay flat 0 small_world 2
                  [deceased; resident] one_tick)
           [deceased; set_location resident (0.52, 0.48)] after_draw).
  cbn [seq Simulate.sweep]. unfold bind at 1. unfold Simulate.update_at at 1.
  cbn [nth_error]. unfold bind at 1.
  rewrite (@update_dead replay flat) by reflexivity.
  unfold ret at 1. cbn [replace_nth].
  unfold bind at 1. unfold Simulate.update_at. cbn [nth_error].
  unfold bind at 1.
  rewrite (@update_alive replay flat _ _ _ _ _ (0.52, 0.48) after_move);
    [| reflexivity | apply resident_moves; reflexivity].
  rewrite (@progress_exposed replay) by reflexivity.
  assert (Hcell : cell_of (scale small_world) (set_location resident (0.52, 0.48))
                  = (52, 48)%Z).
  { unfold cell_of. cbn [location set_location fst snd scale small_world
                         Environment.init].
    replace (0.52 * IZR (10 ^ Z.of_nat 2)) with (IZR 52) by (simpl; lra).
    replace (0.48 * IZR (10 ^ Z.of_nat 2)) with (IZR 48) by (simpl; lra).
    rewrite !py_int_IZR. reflexivity. }
  rewrite Hcell. cbn [fst snd].
  rewrite grid_get_in_grid by (unfold in_grid; simpl; lia).
  rewrite after_move_rand. cbn [fst snd viralMap small_world Environment.init].
  rewrite Rltb_false by lra. reflexivity.
Defined.





(** X22.  Seeding puts the infection on the map.  With [patient0] a position
    of the list, a living agent there, and a population in which nobody
    cleans, the seeded state holds the same number of agents, the agent at
    [patient0] is infected at (0.5, 0.5), and the first update of the
    environment leaves the cell under it at the attenuation, the largest load
    a cell can carry after the decay.  A [patient0] past the end of the list
    is an index error. *)
Theorem seeding_loads_the_centre populationSize patient0 population landscape :
  ((length population <= patient0)%nat ->
   Simulate.start populationSize patient0 population landscape = IndexError)
  /\ (forall p,
        nth_error population patient0 = Some p -> alive p = true ->
        Forall (fun q => cleanlinessBias q = 0) population ->
        (0 <= AOE landscape)%Z -> (0 <= scale landscape)%Z ->
        let c := py_int (0.5 * IZR (scale landscape)) in
        0 <= viralMap landscape c c ->
        exists st0,
          Simulate.start populationSize patient0 population landscape = Done st0
          /\ length (Simulate.population st0) = length population
          /\ nth_error (Simulate.population st0) patient0
             = Some (Simulate.seed_patient p)
          /\ infected (Simulate.seed_patient p) = true
          /\ location (Simulate.seed_patient p) = (0.5, 0.5)
          /\ viralMap (Simulate.landscape st0) c c = attenuation landscape).
Proof.
  split.
  - intros Hk. unfold Simulate.start.
    apply nth_error_None in Hk. rewrite Hk. reflexivity.
  - intros p Hp Ha Hclean Haoe Hsc c Hv.
    assert (Hk : (patient0 < length population)%nat)
      by (apply nth_error_Some; congruence).
    unfold Simulate.start. rewrite Hp. eexists. split; [reflexivity |].
    cbn [Simulate.population Simulate.landscape].
    split; [apply length_replace_nth |].
    split; [apply nth_error_replace_nth; exact Hk |].
    split; [reflexivity |]. split; [reflexivity |].
    pose proof (saturated_cell landscape
                  (replace_nth patient0 (Simulate.seed_patient p) population)
                  (Simulate.seed_patient p)) as Hsat.
    cbv zeta in Hsat.
    apply Hsat.
    + apply Forall_replace_nth; [assumption | reflexivity].
    + apply In_replace_nth. exact Hk.
    + exact Ha.
    + reflexivity.
    + exact Haoe.
    + apply (cell_of_in_grid (scale landscape) (Simulate.seed_patient p) Hsc);
        simpl; lra.
    + exact Hv.
Qed.

Lemma seeding_loads_the_centre_witness :
  exists st0,
    Simulate.start 2 1 [resident; incubating] small_world = Done st0
    /\ viralMap (Simulate.landscape st0) 50%Z 50%Z = 0.5.
Proof.
  assert (Hc : py_int (0.5 * IZR (scale small_world)) = 50%Z).
  { replace (0.5 * IZR (scale small_world)) with (IZR 50) by (simpl; lra).
    apply py_int_IZR. }
  destruct (proj2 (seeding_loads_the_centre 2 1 [resident; incubating]
                     small_world) incubating eq_refl eq_refl
              ltac:(repeat constructor) ltac:(simpl; lia) ltac:(simpl; lia)
              ltac:(simpl; lra))
    as (st0 & Hstart & _ & _ & _ & _ & Hload).
  exists st0. split; [exact Hstart |].
  rewrite Hc in Hload. exact Hload.
Defined.
